(** * StarryPy3k: the packet framer and the relay engine of [server.py]

    A shallow embedding of [read_packet], [StarryPyServer] and
    [ServerFactory].  Coroutines become functions in a small monad that
    threads the interpreter state, may raise a Python exception and
    collects the effects the coroutine itself performs (stream writes,
    flushes, closes, task cancellations, log records). *)

From Stdlib Require Import ZArith Strings.Byte.
From stdpp Require Import gmap strings list fin_maps.

Open Scope Z_scope.

(** ** Enumerations, exceptions and effects *)

(** [class State(IntEnum)] *)
Inductive State :=
  | VERSION_SENT
  | CLIENT_CONNECT_RECEIVED
  | HANDSHAKE_CHALLENGE_SENT
  | HANDSHAKE_RESPONSE_RECEIVED
  | CONNECT_RESPONSE_SENT
  | CONNECTED
  | CONNECTED_WITH_HEARTBEAT.

Definition State_value (s : State) : Z :=
  match s with
  | VERSION_SENT => 0
  | CLIENT_CONNECT_RECEIVED => 1
  | HANDSHAKE_CHALLENGE_SENT => 2
  | HANDSHAKE_RESPONSE_RECEIVED => 3
  | CONNECT_RESPONSE_SENT => 4
  | CONNECTED => 5
  | CONNECTED_WITH_HEARTBEAT => 6
  end.

#[global] Instance State_eq_dec : EqDecision State.
Proof. solve_decision. Defined.

(** The Python exceptions the modelled code can meet.  The first four are
    the subclasses of [ConnectionError]; [TimeoutError] and [OSError] are
    socket failures outside that class. *)
Inductive exn :=
  | ConnectionResetError
  | BrokenPipeError
  | ConnectionAbortedError
  | ConnectionRefusedError
  | TimeoutError
  | OSError
  | IncompleteReadError
  | zlib_error
  | AttributeError
  | ValueError
  | KeyError
  | TypeError
  | ReferenceError.

#[global] Instance exn_eq_dec : EqDecision exn.
Proof. solve_decision. Defined.

(** [isinstance(e, ConnectionError)] *)
Definition is_ConnectionError (e : exn) : bool :=
  match e with
  | ConnectionResetError | BrokenPipeError
  | ConnectionAbortedError | ConnectionRefusedError => true
  | _ => false
  end.

Inductive Level := DEBUG | INFO | WARNING | EXCEPTION.

(** What a coroutine does to the outside: stream and task operations are
    recorded with the identity of the object they were called on. *)
Inductive Event :=
  | EvLog (lvl : Level) (msg : string)
  | EvWrite (writer : nat) (data : list byte)
  | EvDrain (writer : nat)
  | EvClose (writer : nat)
  | EvCancel (task : nat).

Definition writes_of (evs : list Event) : list (nat * list byte) :=
  omap (λ ev, match ev with EvWrite wr d => Some (wr, d) | _ => None end) evs.

Definition is_log (ev : Event) : bool :=
  match ev with EvLog _ _ => true | _ => false end.

(** The effects other than log records. *)
Definition io_of (evs : list Event) : list Event :=
  filter (λ ev, is_log ev = false) evs.

(** ** Objects *)

(** The dict [p] that [read_packet] fills in. *)
Record Packet := mkPacket {
  pkt_type : Z;
  pkt_size : Z;
  pkt_compressed : bool;
  pkt_data : list byte;
  pkt_original_data : list byte;
  pkt_direction : string
}.

(** The attributes of a [StarryPyServer] object.  An attribute holding
    [None] is [None] here; [player] is absent until a plugin sets it
    ([hasattr(self, "player")]) and then carries [player.name]. *)
Record Conn := mkConn {
  _reader : nat;
  _writer : nat;
  _client_reader : option nat;
  _client_writer : option nat;
  _client_loop_future : option nat;
  _server_loop_future : nat;
  state : option State;
  _alive : bool;
  player : option string
}.

Inductive Coroutine :=
  | ServerLoop (self : nat)
  | ClientLoop (self : nat).

(** The interpreter state the code runs against.  Objects are named by
    their identity (a number).
    - [conns]: the [StarryPyServer] objects;
    - [protocols]: [ServerFactory.protocols];
    - [inbox]: for each [StreamReader], the bytes it still delivers before
      end of stream;
    - [closed]: the writers whose [close()] has been called;
    - [broken]: the writers whose [drain()] raises, with the exception;
    - [tasks], [cancelled]: the [asyncio.Task]s created and those whose
      [cancel()] has been called;
    - [upstream_down]: the exception [asyncio.open_connection] raises when
      the real server cannot be reached;
    - [next_id]: the identity of the next object to be created. *)
Record World := mkWorld {
  conns : gmap nat Conn;
  protocols : list nat;
  inbox : gmap nat (list byte);
  closed : gset nat;
  broken : gmap nat exn;
  tasks : gmap nat Coroutine;
  cancelled : gset nat;
  upstream_down : option exn;
  next_id : nat
}.

Definition set_conns (f : gmap nat Conn → gmap nat Conn) (w : World) : World :=
  mkWorld (f (conns w)) (protocols w) (inbox w) (closed w) (broken w)
          (tasks w) (cancelled w) (upstream_down w) (next_id w).

Definition set_protocols (f : list nat → list nat) (w : World) : World :=
  mkWorld (conns w) (f (protocols w)) (inbox w) (closed w) (broken w)
          (tasks w) (cancelled w) (upstream_down w) (next_id w).

Definition set_inbox (f : gmap nat (list byte) → gmap nat (list byte))
    (w : World) : World :=
  mkWorld (conns w) (protocols w) (f (inbox w)) (closed w) (broken w)
          (tasks w) (cancelled w) (upstream_down w) (next_id w).

Definition set_closed (f : gset nat → gset nat) (w : World) : World :=
  mkWorld (conns w) (protocols w) (inbox w) (f (closed w)) (broken w)
          (tasks w) (cancelled w) (upstream_down w) (next_id w).

Definition set_tasks (f : gmap nat Coroutine → gmap nat Coroutine)
    (w : World) : World :=
  mkWorld (conns w) (protocols w) (inbox w) (closed w) (broken w)
          (f (tasks w)) (cancelled w) (upstream_down w) (next_id w).

Definition set_cancelled (f : gset nat → gset nat) (w : World) : World :=
  mkWorld (conns w) (protocols w) (inbox w) (closed w) (broken w)
          (tasks w) (f (cancelled w)) (upstream_down w) (next_id w).

Definition set_next_id (f : nat → nat) (w : World) : World :=
  mkWorld (conns w) (protocols w) (inbox w) (closed w) (broken w)
          (tasks w) (cancelled w) (upstream_down w) (f (next_id w)).

(** ** The coroutine monad *)

(** A run ends with a value, with a raised exception, or is cut off because
    the unrolling bound of a loop was reached. *)
Inductive Res (A : Type) :=
  | Ok (a : A)
  | Raise (e : exn)
  | OutOfFuel.
Arguments Ok {A} a.
Arguments Raise {A} e.
Arguments OutOfFuel {A}.

Record Out (A : Type) := mkOut {
  res : Res A;
  after : World;
  emitted : list Event
}.
Arguments mkOut {A} _ _ _.
Arguments res {A} _.
Arguments after {A} _.
Arguments emitted {A} _.

Definition M (A : Type) : Type := World → Out A.

Definition ret {A} (a : A) : M A := λ w, mkOut (Ok a) w [].

Definition raise {A} (e : exn) : M A := λ w, mkOut (Raise e) w [].

Definition out_of_fuel {A} : M A := λ w, mkOut OutOfFuel w [].

(** [evs] happened before the run [o]. *)
Definition prepend {A} (evs : list Event) (o : Out A) : Out A :=
  mkOut (res o) (after o) (evs ++ emitted o).

Definition bind {A B} (m : M A) (k : A → M B) : M B := λ w,
  match m w with
  | mkOut (Ok a) w1 evs => prepend evs (k a w1)
  | mkOut (Raise e) w1 evs => mkOut (Raise e) w1 evs
  | mkOut OutOfFuel w1 evs => mkOut OutOfFuel w1 evs
  end.

#[global] Instance M_ret : MRet M := @ret.
#[global] Instance M_bind : MBind M := λ A B k m, bind m k.

(** [try: body  except: handler(e)] — every exception of [body] goes to the
    handler; the handler decides whether to re-raise. *)
Definition try_except {A} (body : M A) (handler : exn → M A) : M A := λ w,
  match body w with
  | mkOut (Raise e) w1 evs => prepend evs (handler e w1)
  | o => o
  end.

(** [try: body  finally: final] — [final] runs after [body] however it ended;
    an exception raised by [final] replaces the outcome of [body]. *)
Definition try_finally {A} (body : M A) (final : M unit) : M A := λ w,
  match body w with
  | mkOut OutOfFuel w1 evs => mkOut OutOfFuel w1 evs
  | mkOut r w1 evs =>
      match final w1 with
      | mkOut (Ok _) w2 evs' => mkOut r w2 (evs ++ evs')
      | mkOut (Raise e) w2 evs' => mkOut (Raise e) w2 (evs ++ evs')
      | mkOut OutOfFuel w2 evs' => mkOut OutOfFuel w2 (evs ++ evs')
      end
  end.

Definition gets {A} (f : World → A) : M A := λ w, mkOut (Ok (f w)) w [].

Definition modify (f : World → World) : M unit := λ w, mkOut (Ok tt) (f w) [].

Definition emit (ev : Event) : M unit := λ w, mkOut (Ok tt) w [ev].

(** Reading an attribute that holds [None] and calling a method on it. *)
Definition not_None {A} (o : option A) : M A :=
  match o with
  | Some a => ret a
  | None => raise AttributeError
  end.

(** [logger.debug], [logger.info], [logger.warning], [logger.exception] *)
Definition logger_debug (msg : string) : M unit := emit (EvLog DEBUG msg).
Definition logger_info (msg : string) : M unit := emit (EvLog INFO msg).
Definition logger_warning (msg : string) : M unit := emit (EvLog WARNING msg).
Definition logger_exception (msg : string) : M unit := emit (EvLog EXCEPTION msg).

(** ** Streams *)

Definition buffered (reader : nat) (w : World) : list byte :=
  default [] (inbox w !! reader).

(** [StreamReader.readexactly(n)]: the next [n] bytes, or
    [IncompleteReadError] when the stream ends first. *)
Definition readexactly (reader : nat) (n : nat) : M (list byte) := λ w,
  let buf := buffered reader w in
  if decide (n ≤ length buf)%nat
  then mkOut (Ok (take n buf)) (set_inbox <[reader := drop n buf]> w) []
  else mkOut (Raise IncompleteReadError) (set_inbox <[reader := []]> w) [].

(** [ord(b)] of a bytes object *)
Definition ord (b : list byte) : M Z :=
  match b with
  | [x] => ret (Z.of_N (Byte.to_N x))
  | _ => raise TypeError
  end.

(** ** The framer *)

Section Framer.

(** [utilities.read_signed_vlq] lives in another module; it is a parameter
    here, taken as the decoder it implements: from the bytes the reader
    still holds, the decoded integer, the bytes consumed for it and the
    bytes left, or [None] when the stream ends inside the number. *)
Variable signed_vlq : list byte → option (Z * list byte * list byte).

(** [zlib.decompressobj().decompress(data)]; [None] stands for
    [zlib.error]. *)
Variable decompress : list byte → option (list byte).

Definition read_signed_vlq (reader : nat) : M (Z * list byte) := λ w,
  match signed_vlq (buffered reader w) with
  | Some (v, d, rest) => mkOut (Ok (v, d)) (set_inbox <[reader := rest]> w) []
  | None => mkOut (Raise IncompleteReadError) (set_inbox <[reader := []]> w) []
  end.

Definition zlib_decompress (data : list byte) : M (list byte) :=
  match decompress data with
  | Some out => ret out
  | None => raise zlib_error
  end.

Definition read_packet (reader : nat) (direction : string) : M Packet :=
  logger_debug "New packet. Direction: %s";;
  logger_debug "Attempting to read packet type";;
  packet_type ← readexactly reader 1;
  t ← ord packet_type;
  logger_debug "Got packet type of %d";;
  logger_debug "Attempting to read/parse packet size.";;
  '(packet_size, packet_size_data) ← read_signed_vlq reader;
  let compressed := bool_decide (packet_size < 0) in
  let packet_size := if compressed then Z.abs packet_size else packet_size in
  logger_debug "Attempting to read %d bytes of data.";;
  data ← readexactly reader (Z.to_nat packet_size);
  payload ←
    (if negb compressed then
       logger_debug "Packet is not compressed.";;
       ret data
     else
       logger_debug "Packet is compressed, attempting to decompress.";;
       try_except (zlib_decompress data)
         (λ e, logger_exception "Couldn't decompress packet.";; raise e));
  let original_data := packet_type ++ packet_size_data ++ data in
  logger_debug "Completed packet parsing, returning.";;
  ret (mkPacket t packet_size compressed payload original_data direction).

(** A frame lying at the head of a reader's buffer: the type byte [t],
    the bytes [d] that the VLQ decoder consumes for the value [v], and
    [|v|] payload bytes [raw], followed by [rest]. *)
Definition frame_at (r : nat) (w : World) (t : byte) (v : Z)
    (d raw rest : list byte) : Prop :=
  buffered r w = t :: d ++ raw ++ rest ∧
  signed_vlq (d ++ raw ++ rest) = Some (v, d, raw ++ rest) ∧
  Z.of_nat (length raw) = Z.abs v.

(** What [zobj.decompress] is asked to produce for a frame: nothing to do
    for an uncompressed one. *)
Definition expected_payload (v : Z) (raw : list byte) : option (list byte) :=
  if bool_decide (v < 0) then decompress raw else Some raw.

End Framer.

Definition header_logs : list Event :=
  [EvLog DEBUG "New packet. Direction: %s";
   EvLog DEBUG "Attempting to read packet type";
   EvLog DEBUG "Got packet type of %d";
   EvLog DEBUG "Attempting to read/parse packet size.";
   EvLog DEBUG "Attempting to read %d bytes of data."].

Definition compressed_logs : list Event :=
  header_logs ++
  [EvLog DEBUG "Packet is compressed, attempting to decompress."].


(** ** Connections and the registry *)

(** The dict handed to [ChatReceived.build]. *)
Record ChatDict := mkChat {
  chat_message : string;
  chat_world : string;
  chat_client_id : Z;
  chat_name : string;
  chat_channel : Z
}.

Definition set_client_streams (r w : nat) (c : Conn) : Conn :=
  mkConn (_reader c) (_writer c) (Some r) (Some w) (_client_loop_future c)
         (_server_loop_future c) (state c) (_alive c) (player c).

Definition set_client_loop_future (t : nat) (c : Conn) : Conn :=
  mkConn (_reader c) (_writer c) (_client_reader c) (_client_writer c) (Some t)
         (_server_loop_future c) (state c) (_alive c) (player c).

Definition set_alive (b : bool) (c : Conn) : Conn :=
  mkConn (_reader c) (_writer c) (_client_reader c) (_client_writer c)
         (_client_loop_future c) (_server_loop_future c) (state c) b (player c).

(** [list.remove(x)]: drops the first element equal to [x]; [None] when
    there is none ([ValueError]).  [StarryPyServer] defines no [__eq__], so
    equality is identity. *)
Fixpoint list_remove (x : nat) (l : list nat) : option (list nat) :=
  match l with
  | [] => None
  | y :: l' => if decide (x = y) then Some l' else (y ::.) <$> list_remove x l'
  end.

Section Relay.

Variable signed_vlq : list byte → option (Z * list byte * list byte).
Variable decompress : list byte → option (list byte).

(** [data_parser.ChatReceived.build] and [pparser.build_packet], the packet
    builder; [packets.packets], the table from type byte to packet name;
    [plugin_manager.do], the interception layer.  They live in other
    modules and are parameters here. *)
Variable ChatReceived_build : ChatDict → list byte.
Variable build_packet : Z → list byte → list byte.
Variable packets : gmap Z string.
Variable plugin_do : nat → string → Packet → M bool.

(** What the rest of the event loop does to the state while a coroutine of
    this file is suspended. *)
Variable others : World → World.

Definition suspend : M unit := modify others.

(** [StreamWriter.write(data)] *)
Definition writer_write (writer : nat) (data : list byte) : M unit :=
  emit (EvWrite writer data).

(** [yield from StreamWriter.drain()]: raises the exception the transport
    has met, if any; otherwise the coroutine may be suspended until the
    buffer has been flushed. *)
Definition drain (writer : nat) : M unit :=
  emit (EvDrain writer);;
  b ← gets broken;
  match b !! writer with
  | Some e => raise e
  | None => suspend
  end.

(** How a [drain] on [writer] ends in [w], and the state it leaves. *)
Definition drain_res (writer : nat) (w : World) : Res unit :=
  match broken w !! writer with
  | Some e => Raise e
  | None => Ok tt
  end.

Definition drain_after (writer : nat) (w : World) : World :=
  match broken w !! writer with
  | Some _ => w
  | None => others w
  end.

(** [StreamWriter.close()] *)
Definition writer_close (writer : nat) : M unit :=
  emit (EvClose writer);;
  modify (set_closed ({[writer]} ∪.)).

Definition new_object : M nat :=
  n ← gets next_id;
  modify (set_next_id S);;
  ret n.

(** [asyncio.Task(coro)] *)
Definition Task (coro : Coroutine) : M nat :=
  t ← new_object;
  modify (set_tasks <[t := coro]>);;
  ret t.

(** [Task.cancel()] *)
Definition cancel (task : nat) : M unit :=
  emit (EvCancel task);;
  modify (set_cancelled ({[task]} ∪.)).

(** [yield from asyncio.open_connection("127.0.0.1", 21024)]: the reader
    and the writer of a new transport, or the dial error. *)
Definition open_connection : M (nat * nat) :=
  suspend;;
  d ← gets upstream_down;
  match d with
  | Some e => raise e
  | None => s ← new_object; ret (s, s)
  end.

(** Reaching the object behind a reference. *)
Definition get_conn (self : nat) : M Conn :=
  cs ← gets conns;
  match cs !! self with
  | Some c => ret c
  | None => raise ReferenceError
  end.

Definition update_conn (self : nat) (f : Conn → Conn) : M unit :=
  modify (set_conns (alter f self)).

(** *** [ServerFactory.remove] *)
Definition remove (protocol : nat) : M unit :=
  ps ← gets protocols;
  match list_remove protocol ps with
  | Some ps' => modify (set_protocols (λ _, ps'))
  | None => raise ValueError
  end.

(** *** [StarryPyServer.die] *)
Definition die (self : nat) : M unit :=
  c ← get_conn self;
  if _alive c then
    match player c with
    | Some _ => logger_info "Removing player %s."
    | None => logger_info "Removing unknown player."
    end;;
    writer_close (_writer c);;
    client_writer ← not_None (_client_writer c);
    writer_close client_writer;;
    cancel (_server_loop_future c);;
    client_loop_future ← not_None (_client_loop_future c);
    cancel client_loop_future;;
    remove self;;
    update_conn self (set_alive false)
  else ret tt.

(** *** [StarryPyServer.__del__] *)
Definition StarryPyServer_del (self : nat) : M unit :=
  try_except (die self) (λ _, ret tt).

(** *** [StarryPyServer.write], [raw_write], [write_client] *)
Definition write (self : nat) (packet : Packet) : M unit :=
  c ← get_conn self;
  writer_write (_writer c) (pkt_original_data packet);;
  drain (_writer c).

Definition raw_write (self : nat) (data : list byte) : M unit :=
  c ← get_conn self;
  writer_write (_writer c) data;;
  drain (_writer c).

Definition write_client (self : nat) (packet : Packet) : M unit :=
  c ← get_conn self;
  client_writer ← not_None (_client_writer c);
  writer_write client_writer (pkt_original_data packet);;
  drain (_writer c).

(** *** [StarryPyServer.send_message] *)
Definition send_message (self : nat) (message world : string) (client_id : Z)
    (name : string) (channel : Z) : M unit :=
  c ← get_conn self;
  if bool_decide (state c = Some CONNECTED_WITH_HEARTBEAT) then
    let chat_packet :=
      ChatReceived_build (mkChat message world client_id name channel) in
    let to_send := build_packet 4 chat_packet in
    raw_write self to_send
  else ret tt.

(** *** [StarryPyServer.check_plugins] *)
Definition check_plugins (self : nat) (packet : Packet) : M bool :=
  match packets !! pkt_type packet with
  | Some packet_name => plugin_do self packet_name packet
  | None => raise KeyError
  end.

(** *** The pump loops

    One turn of the [while True:] of [server_loop], and of [client_loop]. *)
Definition server_body (self : nat) : M unit :=
  c ← get_conn self;
  packet ← read_packet signed_vlq decompress (_reader c) "Client";
  forward ← check_plugins self packet;
  if forward : bool then write_client self packet else ret tt.

Definition client_body (self : nat) : M unit :=
  c ← get_conn self;
  client_reader ← not_None (_client_reader c);
  packet ← read_packet signed_vlq decompress client_reader "Server";
  send_flag ← check_plugins self packet;
  if send_flag : bool then write self packet else ret tt.

(** [while True:] unrolled at most [fuel] times; only an exception ends it. *)
Fixpoint server_while (fuel : nat) (self : nat) : M unit :=
  match fuel with
  | O => out_of_fuel
  | S fuel' => server_body self;; server_while fuel' self
  end.

Fixpoint client_while (fuel : nat) (self : nat) : M unit :=
  match fuel with
  | O => out_of_fuel
  | S fuel' => client_body self;; client_while fuel' self
  end.

(** [StarryPyServer.client_loop] *)
Definition client_loop (fuel : nat) (self : nat) : M unit :=
  try_finally (client_while fuel self) (die self).

(** The [try: while True: ... finally: self.die()] of [server_loop]. *)
Definition server_pump (fuel : nat) (self : nat) : M unit :=
  try_finally (server_while fuel self) (die self).

(** The opening of [server_loop], up to its [try:]. *)
Definition server_connect (self : nat) : M unit :=
  '(client_reader, client_writer) ← open_connection;
  update_conn self (set_client_streams client_reader client_writer);;
  client_loop_future ← Task (ClientLoop self);
  update_conn self (set_client_loop_future client_loop_future).

(** [StarryPyServer.server_loop] *)
Definition server_loop (fuel : nat) (self : nat) : M unit :=
  server_connect self;;
  server_pump fuel self.

(** *** [StarryPyServer.__init__] *)
Definition StarryPyServer_init (reader writer : nat) : M nat :=
  logger_warning "Initializing protocol.";;
  self ← new_object;
  server_loop_future ← Task (ServerLoop self);
  modify (set_conns <[self :=
    mkConn reader writer None None None server_loop_future None true None]>);;
  ret self.

(** *** [ServerFactory.__call__] *)
Definition ServerFactory_call (reader writer : nat) : M unit :=
  server ← StarryPyServer_init reader writer;
  modify (set_protocols (λ ps, ps ++ [server])).

(** *** [ServerFactory.broadcast]

    [for protocol in self.protocols:] walks the list object itself: at each
    step the element at the next position of the list as it is then. *)
Fixpoint broadcast_from (fuel : nat) (i : nat) (message world name : string)
    (channel client_id : Z) : M unit :=
  match fuel with
  | O => out_of_fuel
  | S fuel' =>
      ps ← gets protocols;
      match ps !! i with
      | None => ret tt
      | Some protocol =>
          try_except
            (send_message protocol message world client_id name channel)
            (λ e, if is_ConnectionError e then ret tt else raise e);;
          broadcast_from fuel' (S i) message world name channel client_id
      end
  end.

Definition broadcast (fuel : nat) (message world name : string)
    (channel client_id : Z) : M unit :=
  broadcast_from fuel 0 message world name channel client_id.

End Relay.

(** The record [read_packet] builds for a frame read by the downstream
    loop. *)
Definition client_packet (t : byte) (v : Z) (d raw out : list byte) : Packet :=
  mkPacket (Z.of_N (Byte.to_N t)) (Z.abs v) (bool_decide (v < 0)) out
           ([t] ++ d ++ raw) "Client".

(** ** Predicates on the state *)

(** A connection as the pump loops see it: the object exists and is alive,
    the upstream transport is open, the second loop has been started, and
    the registry holds the connection once. *)
Definition pumping (w : World) (self : nat) (c : Conn) (cw ct : nat) : Prop :=
  conns w !! self = Some c ∧
  _alive c = true ∧
  _client_writer c = Some cw ∧
  _client_loop_future c = Some ct ∧
  self ∈ protocols w ∧
  NoDup (protocols w).

(** The outcome of teardown for a connection that was [c]: both transports
    closed, both loop tasks cancelled, the connection out of the registry
    and no longer alive. *)
Definition torn_down (w : World) (self : nat) (c : Conn) (cw ct : nat) : Prop :=
  _writer c ∈ closed w ∧
  cw ∈ closed w ∧
  _server_loop_future c ∈ cancelled w ∧
  ct ∈ cancelled w ∧
  (self ∉ protocols w) ∧
  (_alive <$> conns w !! self) = Some false.

(** The effects of one teardown, log records apart. *)
Definition teardown_io (c : Conn) (cw ct : nat) : list Event :=
  [EvClose (_writer c); EvClose cw;
   EvCancel (_server_loop_future c); EvCancel ct].

(** The log record that opens a teardown. *)
Definition removal_log (c : Conn) : Event :=
  match player c with
  | Some _ => EvLog INFO "Removing player %s."
  | None => EvLog INFO "Removing unknown player."
  end.

(** The [state] attribute of every connection. *)
Definition states (w : World) : gmap nat (option State) :=
  state <$> conns w.

(** The state [die] leaves behind when it runs to its end. *)
Definition die_world (self : nat) (c : Conn) (cw ct : nat) (ps' : list nat)
    (w : World) : World :=
  set_conns (alter (set_alive false) self)
    (set_protocols (λ _, ps')
      (set_cancelled ({[ct]} ∪.)
        (set_cancelled ({[_server_loop_future c]} ∪.)
          (set_closed ({[cw]} ∪.)
            (set_closed ({[_writer c]} ∪.) w))))).

(** How a pump loop run [o] ends when reader [r] held a frame that does not
    inflate, followed by [rest]: the decompression error comes out of the
    loop, the failure was logged, the only effects are those of one
    teardown, the connection is torn down, nothing was read past the frame,
    and a further [die] does nothing. *)
Definition fatal_decode (o : Out unit) (self : nat) (c : Conn) (cw ct : nat)
    (r : nat) (rest : list byte) : Prop :=
  res o = Raise zlib_error ∧
  EvLog EXCEPTION "Couldn't decompress packet." ∈ emitted o ∧
  io_of (emitted o) = teardown_io c cw ct ∧
  torn_down (after o) self c cw ct ∧
  buffered r (after o) = rest ∧
  die self (after o) = mkOut (Ok tt) (after o) [].

(** ** Predicates for the broadcast *)

(** The frame [send_message] writes. *)
Definition chat_frame (ChatReceived_build : ChatDict → list byte)
    (build_packet : Z → list byte → list byte)
    (message world : string) (client_id : Z) (name : string) (channel : Z)
    : list byte :=
  build_packet 4 (ChatReceived_build
    (mkChat message world client_id name channel)).

(** [w'] has the registry, the connection objects and the failure status
    of the streams that [w] has. *)
Definition same_registry (w' w : World) : Prop :=
  protocols w' = protocols w ∧ conns w' = conns w ∧ broken w' = broken w.

(** Every reference in the registry leads to an object. *)
Definition registry_live (w : World) : Prop :=
  ∀ p, p ∈ protocols w → is_Some (conns w !! p).

(** The writer a broadcast writes to when it visits [p]: the client stream
    of [p], provided [p] is in state [CONNECTED_WITH_HEARTBEAT]. *)
Definition listening (w : World) (p : nat) : option nat :=
  match conns w !! p with
  | Some c =>
      if bool_decide (state c = Some CONNECTED_WITH_HEARTBEAT)
      then Some (_writer c) else None
  | None => None
  end.

Definition recipients (w : World) (ps : list nat) : list nat :=
  omap (listening w) ps.

(** No other task touches the registry, the connection objects or the
    failure status of the streams while a coroutine is suspended. *)
Definition registry_stable (others : World → World) : Prop :=
  ∀ w, protocols (others w) = protocols w ∧
       conns (others w) = conns w ∧
       broken (others w) = broken w.

(** Every failure a broadcast can meet on a registered connection is a
    [ConnectionError]. *)
Definition only_connection_errors (w : World) : Prop :=
  ∀ p c e, p ∈ protocols w → conns w !! p = Some c →
    state c = Some CONNECTED_WITH_HEARTBEAT →
    broken w !! _writer c = Some e → is_ConnectionError e = true.

(** A computation that leaves the [state] attribute of every connection as
    it was. *)
Definition keeps_states {A} (m : M A) : Prop :=
  ∀ w, states (after (m w)) = states w.
(** ** A concrete wire format to run the framer on *)

Definition byte_Z (b : byte) : Z := Z.of_N (Byte.to_N b).

(** The bytes of one VLQ: up to and including the first byte whose high bit
    is clear. *)
Fixpoint vlq_split (s : list byte) : option (list byte * list byte) :=
  match s with
  | [] => None
  | b :: s' =>
      if Z.testbit (byte_Z b) 7
      then match vlq_split s' with
           | Some (d, rest) => Some (b :: d, rest)
           | None => None
           end
      else Some ([b], s')
  end.

Fixpoint vlq_value (d : list byte) : Z :=
  match d with
  | [] => 0
  | b :: d' => Z.lor (Z.land (byte_Z b) 127) (Z.shiftl (vlq_value d') 7)
  end.

Definition vlq_sign (u : Z) : Z :=
  if Z.testbit u 0 then - (Z.shiftr u 1 + 1) else Z.shiftr u 1.

(** Modelled from the spec: [utilities.read_signed_vlq], whose code is in
    another module.  Base-128 digits, the high bit of a byte announcing another
    byte, the low seven bits accumulated little-endian, and bit 0 of the
    accumulated value giving the sign.  The theorems below hold for any
    decoder; this one instantiates them on concrete frames. *)
Definition spec_signed_vlq (s : list byte) : option (Z * list byte * list byte) :=
  match vlq_split s with
  | Some (d, rest) => Some (vlq_sign (vlq_value d), d, rest)
  | None => None
  end.

Definition adler32 (data : list byte) : Z :=
  let '(a, b) :=
    fold_left (λ '(a, b) x,
                 let a' := (a + byte_Z x) mod 65521 in (a', (b + a') mod 65521))
              data (1, 0) in
  b * 65536 + a.

Definition be32 (bs : list byte) : Z :=
  fold_left (λ acc x, acc * 256 + byte_Z x) bs 0.

(** A decoder for the smallest part of the zlib format: a stream holding one
    final stored block (header [78 xx], block byte, LEN, NLEN, the bytes,
    Adler-32).  Every other input is rejected.  It stands in for
    [zlib.decompressobj().decompress] when a theorem is run on concrete
    bytes. *)
Definition stored_inflate (raw : list byte) : option (list byte) :=
  match raw with
  | cmf :: flg :: hdr :: l0 :: l1 :: n0 :: n1 :: body =>
      let len := byte_Z l0 + 256 * byte_Z l1 in
      let nlen := byte_Z n0 + 256 * byte_Z n1 in
      let data := take (Z.to_nat len) body in
      if bool_decide (byte_Z cmf = 120 ∧ (256 * 120 + byte_Z flg) mod 31 = 0 ∧
                      Z.land (byte_Z flg) 32 = 0 ∧ Z.land (byte_Z hdr) 7 = 1 ∧
                      len + nlen = 65535 ∧
                      length body = (Z.to_nat len + 4)%nat ∧
                      be32 (drop (Z.to_nat len) body) = adler32 data)
      then Some data
      else None
  | _ => None
  end.

(** Type 4, size 5, the bytes of "hello". *)
Definition hello_frame : list byte :=
  [x04; x0a; x68; x65; x6c; x6c; x6f].

(** Type 4, size -13 (compressed), "hi" as one stored zlib block. *)
Definition hi_zlib : list byte :=
  [x78; x01; x01; x02; x00; xfd; xff; x68; x69; x01; x3b; x00; xd2].
Definition hi_frame : list byte := [x04; x19] ++ hi_zlib.

(** Type 4, size -3 (compressed), three bytes that are no zlib stream. *)
Definition corrupt_frame : list byte := [x04; x05; xff; xff; xff].

Definition empty_world : World :=
  mkWorld ∅ [] ∅ ∅ ∅ ∅ ∅ None 0.

(** A world in which reader [r] holds [bytes]. *)
Definition world_reading (r : nat) (bytes : list byte) : World :=
  set_inbox <[r := bytes]> empty_world.


(** ** Stand-ins for the absent collaborators *)

Definition byte_of_Z (z : Z) : byte := default x00 (Byte.of_N (Z.to_N z)).

Fixpoint vlq_encode (fuel : nat) (u : Z) : list byte :=
  match fuel with
  | O => []
  | S fuel' =>
      if bool_decide (u < 128) then [byte_of_Z u]
      else byte_of_Z (128 + u mod 128) :: vlq_encode fuel' (u / 128)
  end.

(** A packet builder in the wire format above: type byte, the length as a
    non-negative signed VLQ, the payload. *)
Definition demo_build_packet (t : Z) (payload : list byte) : list byte :=
  byte_of_Z t :: vlq_encode 10 (2 * Z.of_nat (length payload)) ++ payload.

(** A chat encoder that keeps the message text only. *)
Definition demo_chat (c : ChatDict) : list byte :=
  String.list_byte_of_string (chat_message c).

Definition demo_packets : gmap Z string := {[4 := "chat_received"]}.

(** Interception layers that forward, or drop, every frame. *)
Definition forward_all : nat → string → Packet → M bool := λ _ _ _, ret true.
Definition drop_all : nat → string → Packet → M bool := λ _ _ _, ret false.

(** An event loop with nothing else to run. *)
Definition no_others : World → World := λ w, w.

(** ** Concrete states *)

(** Connection 10 (client transport 1, upstream transport 2, tasks 11 and
    12) and connection 20 (client transport 3, upstream transport 4, tasks
    21 and 22), both past the handshake. *)
Definition conn_A : Conn :=
  mkConn 1 1 (Some 2%nat) (Some 2%nat) (Some 12%nat) 11
         (Some CONNECTED_WITH_HEARTBEAT) true None.

Definition conn_B : Conn :=
  mkConn 3 3 (Some 4%nat) (Some 4%nat) (Some 22%nat) 21
         (Some CONNECTED_WITH_HEARTBEAT) true (Some "B").

Definition two_clients : World :=
  mkWorld {[10%nat := conn_A; 20%nat := conn_B]} [10; 20]%nat ∅ ∅ ∅
          {[11%nat := ServerLoop 10; 12%nat := ClientLoop 10;
            21%nat := ServerLoop 20; 22%nat := ClientLoop 20]} ∅ None 30.

Definition set_broken (f : gmap nat exn → gmap nat exn) (w : World) : World :=
  mkWorld (conns w) (protocols w) (inbox w) (closed w) (f (broken w))
          (tasks w) (cancelled w) (upstream_down w) (next_id w).

Definition set_upstream_down (d : option exn) (w : World) : World :=
  mkWorld (conns w) (protocols w) (inbox w) (closed w) (broken w)
          (tasks w) (cancelled w) d (next_id w).

(** The frame a broadcast of "hi" sends. *)
Definition hi_chat : list byte := demo_build_packet 4 (String.list_byte_of_string "hi").

(** Connection 10 with the "hello" frame waiting on its client reader. *)
Definition hello_waiting : World := set_inbox <[1%nat := hello_frame]> two_clients.

(** Connection 10 with a frame that does not inflate waiting on both of its
    readers, followed by the "hello" frame. *)
Definition corrupt_waiting : World :=
  set_inbox (λ _, {[1%nat := corrupt_frame ++ hello_frame;
                    2%nat := corrupt_frame ++ hello_frame]}) two_clients.

(** Connection 10 with a client stream whose flush raises [e]. *)
Definition client_A_broken (e : exn) : World :=
  set_broken <[1%nat := e]> two_clients.

(** A fresh process in which the real server cannot be reached, after the
    factory accepted a client on transport 1. *)
Definition upstream_unreachable : World :=
  after (ServerFactory_call 1 1
           (set_upstream_down (Some ConnectionRefusedError)
              (set_next_id (λ _, 10%nat) empty_world))).

(** While the broadcast is suspended, the loops of connection 10 end. *)
Definition A_leaves : World → World := λ w, after (die 10 w).


(** A process that has just started: the client about to connect on
    transport 1 will send the "hello" frame and then a frame that does not
    inflate. *)
Definition fresh_process : World :=
  set_inbox <[1%nat := hello_frame ++ corrupt_frame]>
    (set_next_id (λ _, 10%nat) empty_world).

(** ** Further predicates on runs and states *)

(** [w'] differs from [w] at most in what reader [r] still holds. *)
Definition same_but_reader (r : nat) (w w' : World) : Prop :=
  conns w' = conns w ∧
  protocols w' = protocols w ∧
  (∀ r', r' ≠ r → inbox w' !! r' = inbox w !! r') ∧
  closed w' = closed w ∧
  broken w' = broken w ∧
  tasks w' = tasks w ∧
  cancelled w' = cancelled w ∧
  upstream_down w' = upstream_down w ∧
  next_id w' = next_id w.

(** A computation that only reads from [r] and logs: it leaves the rest of
    the state alone and performs no stream or task operation. *)
Definition reads_only (r : nat) {A} (m : M A) : Prop :=
  ∀ w, same_but_reader r w (after (m w)) ∧ io_of (emitted (m w)) = [].

(** The registry names each connection once, and only objects that have
    been created. *)
Definition registry_wf (w : World) : Prop :=
  NoDup (protocols w) ∧ ∀ p, p ∈ protocols w → (p < next_id w)%nat.

(** No other task touches the connection objects, the registry, the bytes
    waiting on the readers or the failure status of the streams. *)
Definition calm (others : World → World) : Prop :=
  ∀ w, conns (others w) = conns w ∧
       protocols (others w) = protocols w ∧
       inbox (others w) = inbox w ∧
       broken (others w) = broken w.

(** An interception layer that only decides: the verdict on a packet is
    [verdict p], and nothing else happens. *)
Definition decides_only (plugin_do : nat → string → Packet → M bool)
    (verdict : Packet → bool) : Prop :=
  ∀ self name p w, plugin_do self name p w = mkOut (Ok (verdict p)) w [].

(** The record [read_packet] builds for a frame read by the upstream
    loop. *)
Definition server_packet (t : byte) (v : Z) (d raw out : list byte) : Packet :=
  mkPacket (Z.of_N (Byte.to_N t)) (Z.abs v) (bool_decide (v < 0)) out
           ([t] ++ d ++ raw) "Server".

(** [stream] is a sequence of whole frames of known types, and [ps] are the
    records [read_packet] builds for them, in order, when called with
    [direction]. *)
Inductive framed (signed_vlq : list byte → option (Z * list byte * list byte))
    (decompress : list byte → option (list byte)) (packets : gmap Z string)
    (direction : string) : list byte → list Packet → Prop :=
  | framed_nil : framed signed_vlq decompress packets direction [] []
  | framed_cons t v d raw out rest ps :
      signed_vlq (d ++ raw ++ rest) = Some (v, d, raw ++ rest) →
      Z.of_nat (length raw) = Z.abs v →
      expected_payload decompress v raw = Some out →
      is_Some (packets !! Z.of_N (Byte.to_N t)) →
      framed signed_vlq decompress packets direction rest ps →
      framed signed_vlq decompress packets direction
        (t :: d ++ raw ++ rest)
        (mkPacket (Z.of_N (Byte.to_N t)) (Z.abs v) (bool_decide (v < 0)) out
                  ([t] ++ d ++ raw) direction :: ps).

(** What a loop writes to [writer] when it relays the packets the
    interception layer lets through. *)
Definition relayed (writer : nat) (verdict : Packet → bool)
    (ps : list Packet) : list (nat * list byte) :=
  (λ p, (writer, pkt_original_data p)) <$> filter (λ p, verdict p = true) ps.

(** Every effect in [evs] is a write of [frame] or a flush. *)
Definition chat_only (frame : list byte) (evs : list Event) : Prop :=
  ∀ ev, ev ∈ evs → (∃ wr, ev = EvWrite wr frame) ∨ (∃ wr, ev = EvDrain wr).

(** The outcome [o] of a loop whose [while] raised [e] after the effects
    [evs]: [e] comes out of the loop, the teardown has run and added its
    effects, and nothing else. *)
Definition exits_through_teardown (o : Out unit) (self : nat) (c : Conn)
    (cw ct : nat) (e : exn) (evs : list Event) : Prop :=
  res o = Raise e ∧
  io_of (emitted o) = io_of evs ++ teardown_io c cw ct ∧
  writes_of (emitted o) = writes_of evs ∧
  torn_down (after o) self c cw ct.

(** The log records of a [read_packet] that meets the end of the stream. *)
Definition eof_logs : list Event :=
  [EvLog DEBUG "New packet. Direction: %s";
   EvLog DEBUG "Attempting to read packet type"].

(** ** Further concrete states and stand-ins *)

(** Type 4, size 5, and only one payload byte before the stream ends. *)
Definition truncated_frame : list byte := [x04; x0a; x68].

(** Connection 10 alive and connected, but taken out of the registry. *)
Definition A_unregistered : World := set_protocols (λ _, [20%nat]) two_clients.

(** Both readers of connection 10 hold the "hello" frame followed by the
    compressed "hi" frame. *)
Definition relay_waiting : World :=
  set_inbox (λ _, {[1%nat := hello_frame ++ hi_frame;
                    2%nat := hello_frame ++ hi_frame]}) two_clients.

(** An interception layer that lets the uncompressed frames through and
    drops the compressed ones, doing nothing else. *)
Definition plain_only (p : Packet) : bool := negb (pkt_compressed p).
Definition forward_plain : nat → string → Packet → M bool :=
  λ _ _ p, ret (plain_only p).

(** The records of the two frames of [relay_waiting]. *)
Definition hello_packet (direction : string) : Packet :=
  mkPacket 4 5 false [x68; x65; x6c; x6c; x6f] hello_frame direction.
Definition hi_packet (direction : string) : Packet :=
  mkPacket 4 13 true [x68; x69] hi_frame direction.

(** A process that has just started, before any client. *)
Definition idle_process : World := set_next_id (λ _, 10%nat) empty_world.

(** [relay_waiting] with the client stream of connection 10 reset by the
    peer. *)
Definition relay_client_gone : World :=
  set_broken <[1%nat := ConnectionResetError]> relay_waiting.
(** ** Evaluation lemmas for the monad and the streams *)

Lemma bind_Ok {A B} (m : M A) (k : A → M B) w a w' evs :
  m w = mkOut (Ok a) w' evs →
  (m ≫= k) w = prepend evs (k a w').
Proof. intros H. unfold mbind, M_bind, bind. by rewrite H. Qed.

Lemma bind_Raise {A B} (m : M A) (k : A → M B) w e w' evs :
  m w = mkOut (Raise e) w' evs →
  (m ≫= k) w = mkOut (Raise e) w' evs.
Proof. intros H. unfold mbind, M_bind, bind. by rewrite H. Qed.

Lemma prepend_nil {A} (o : Out A) : prepend [] o = o.
Proof. by destruct o. Qed.

Lemma set_inbox_twice r a b w :
  set_inbox <[r := b]> (set_inbox <[r := a]> w) = set_inbox <[r := b]> w.
Proof. unfold set_inbox; simpl. by rewrite insert_insert_eq. Qed.

Lemma buffered_set_inbox r a w : buffered r (set_inbox <[r := a]> w) = a.
Proof. unfold buffered, set_inbox; simpl. by rewrite lookup_insert_eq. Qed.

Lemma readexactly_prefix r n pre rest w :
  buffered r w = pre ++ rest → length pre = n →
  readexactly r n w = mkOut (Ok pre) (set_inbox <[r := rest]> w) [].
Proof.
  intros Hb Hn. unfold readexactly. rewrite Hb.
  rewrite decide_True by (rewrite length_app; lia).
  subst n. by rewrite take_app_length, drop_app_length.
Qed.

Lemma readexactly_short r n w :
  (length (buffered r w) < n)%nat →
  readexactly r n w = mkOut (Raise IncompleteReadError) (set_inbox <[r := []]> w) [].
Proof. intros Hn. unfold readexactly. by rewrite decide_False by lia. Qed.

Section FramerFacts.

Variable signed_vlq : list byte → option (Z * list byte * list byte).
Variable decompress : list byte → option (list byte).

(** [read_packet] on an uncompressed frame. *)
Lemma read_packet_plain r dir w t v d raw rest :
  frame_at signed_vlq r w t v d raw rest → 0 ≤ v →
  read_packet signed_vlq decompress r dir w =
    mkOut (Ok (mkPacket (Z.of_N (Byte.to_N t)) v false raw
                        ([t] ++ d ++ raw) dir))
          (set_inbox <[r := rest]> w)
          (header_logs ++
           [EvLog DEBUG "Packet is not compressed.";
            EvLog DEBUG "Completed packet parsing, returning."]).
Proof.
  intros (Hb & Hv & Hl) Hpos. unfold read_packet.
  unfold mbind, M_bind, bind, logger_debug, emit. cbn [prepend res after emitted].
  rewrite (readexactly_prefix r 1 [t] (d ++ raw ++ rest)) by done.
  cbn [prepend res after emitted ord ret].
  unfold read_signed_vlq. rewrite buffered_set_inbox, Hv.
  cbn [prepend res after emitted].
  rewrite bool_decide_eq_false_2 by lia. cbn [negb].
  rewrite (readexactly_prefix r _ raw rest);
    [| by rewrite buffered_set_inbox | lia].
  cbn [prepend res after emitted ret]. by rewrite !set_inbox_twice.
Qed.

(** [read_packet] on a compressed frame whose payload inflates. *)
Lemma read_packet_inflated r dir w t v d raw rest out :
  frame_at signed_vlq r w t v d raw rest → v < 0 → decompress raw = Some out →
  read_packet signed_vlq decompress r dir w =
    mkOut (Ok (mkPacket (Z.of_N (Byte.to_N t)) (Z.abs v) true out
                        ([t] ++ d ++ raw) dir))
          (set_inbox <[r := rest]> w)
          (compressed_logs ++
           [EvLog DEBUG "Completed packet parsing, returning."]).
Proof.
  intros (Hb & Hv & Hl) Hneg Hz. unfold read_packet.
  unfold mbind, M_bind, bind, logger_debug, emit. cbn [prepend res after emitted].
  rewrite (readexactly_prefix r 1 [t] (d ++ raw ++ rest)) by done.
  cbn [prepend res after emitted ord ret].
  unfold read_signed_vlq. rewrite buffered_set_inbox, Hv.
  cbn [prepend res after emitted].
  rewrite bool_decide_eq_true_2 by lia. cbn [negb].
  rewrite (readexactly_prefix r _ raw rest);
    [| by rewrite buffered_set_inbox | lia].
  cbn [prepend res after emitted ret].
  unfold try_except, zlib_decompress. rewrite Hz.
  cbn [prepend res after emitted ret]. by rewrite !set_inbox_twice.
Qed.

(** [read_packet] on a compressed frame whose payload does not inflate:
    the failure is logged with [logger.exception] and raised again; the
    frame has been consumed. *)
Lemma read_packet_corrupt r dir w t v d raw rest :
  frame_at signed_vlq r w t v d raw rest → v < 0 → decompress raw = None →
  read_packet signed_vlq decompress r dir w =
    mkOut (Raise zlib_error)
          (set_inbox <[r := rest]> w)
          (compressed_logs ++
           [EvLog EXCEPTION "Couldn't decompress packet."]).
Proof.
  intros (Hb & Hv & Hl) Hneg Hz. unfold read_packet.
  unfold mbind, M_bind, bind, logger_debug, emit. cbn [prepend res after emitted].
  rewrite (readexactly_prefix r 1 [t] (d ++ raw ++ rest)) by done.
  cbn [prepend res after emitted ord ret].
  unfold read_signed_vlq. rewrite buffered_set_inbox, Hv.
  cbn [prepend res after emitted].
  rewrite bool_decide_eq_true_2 by lia. cbn [negb].
  rewrite (readexactly_prefix r _ raw rest);
    [| by rewrite buffered_set_inbox | lia].
  cbn [prepend res after emitted ret].
  unfold try_except, zlib_decompress, logger_exception, emit, raise.
  rewrite Hz. cbn [prepend res after emitted]. by rewrite !set_inbox_twice.
Qed.

End FramerFacts.

(** The decoder of the concrete wire format hands back the bytes it
    consumed and the bytes it left, in that order. *)
Lemma vlq_split_app s d rest : vlq_split s = Some (d, rest) → s = d ++ rest.
Proof.
  revert d rest.
  induction s as [|b s IH]; intros d rest; cbn [vlq_split]; [done|].
  destruct (Z.testbit (byte_Z b) 7).
  - destruct (vlq_split s) as [[d' rest']|]; intros Heq; [|discriminate].
    injection Heq as <- <-. cbn [app]. f_equal. by apply IH.
  - intros Heq. by injection Heq as <- <-.
Qed.

Lemma spec_signed_vlq_app s v d rest :
  spec_signed_vlq s = Some (v, d, rest) → s = d ++ rest.
Proof.
  unfold spec_signed_vlq.
  destruct (vlq_split s) as [[d' rest']|] eqn:Hs; intros Heq; [|discriminate].
  injection Heq as _ <- <-. by apply vlq_split_app.
Qed.

Example hello_decodes :
  res (read_packet spec_signed_vlq stored_inflate 7 "Client"
         (world_reading 7 hello_frame)) =
  Ok (mkPacket 4 5 false [x68; x65; x6c; x6c; x6f] hello_frame "Client").
Proof. vm_compute. reflexivity. Qed.

Example hi_decodes :
  res (read_packet spec_signed_vlq stored_inflate 7 "Server"
         (world_reading 7 hi_frame)) =
  Ok (mkPacket 4 13 true [x68; x69] hi_frame "Server").
Proof. vm_compute. reflexivity. Qed.

Example corrupt_raises :
  res (read_packet spec_signed_vlq stored_inflate 7 "Server"
         (world_reading 7 corrupt_frame)) = Raise zlib_error.
Proof. vm_compute. reflexivity. Qed.

(** ** The registry list *)

Lemma list_remove_absent x l : x ∉ l → list_remove x l = None.
Proof.
  induction l as [|y l IH]; intros Hx; simpl; [done|].
  apply not_elem_of_cons in Hx as [Hne Hx].
  rewrite decide_False by done. by rewrite IH.
Qed.

Lemma list_remove_present x l :
  x ∈ l →
  ∃ l1 l2, l = l1 ++ x :: l2 ∧ (x ∉ l1) ∧ list_remove x l = Some (l1 ++ l2).
Proof.
  induction l as [|y l IH]; intros Hx; [by apply elem_of_nil in Hx|].
  simpl. destruct (decide (x = y)) as [->|Hne].
  - exists [], l. split_and!; [done | apply not_elem_of_nil | done].
  - apply elem_of_cons in Hx as [?|Hx]; [done|].
    destruct (IH Hx) as (l1 & l2 & -> & Hl1 & ->).
    exists (y :: l1), l2. split_and!; [done | | done].
    apply not_elem_of_cons. done.
Qed.

Lemma list_remove_NoDup x l l' :
  NoDup l → list_remove x l = Some l' → (x ∉ l') ∧ NoDup l'.
Proof.
  intros Hnd Hr.
  destruct (decide (x ∈ l)) as [Hin|Hnin];
    [|by rewrite list_remove_absent in Hr].
  destruct (list_remove_present x l Hin) as (l1 & l2 & -> & Hl1 & Hr').
  rewrite Hr' in Hr. injection Hr as <-.
  apply NoDup_app in Hnd as (Hnd1 & Hdisj & Hnd2).
  apply NoDup_cons in Hnd2 as [Hx2 Hnd2].
  split.
  - rewrite elem_of_app. tauto.
  - apply NoDup_app. split_and!; [done | | done].
    intros y Hy1 Hy2. apply (Hdisj y Hy1). by apply elem_of_cons; right.
Qed.

(** ** Teardown *)

Lemma get_conn_eval w self c :
  conns w !! self = Some c → get_conn self w = mkOut (Ok c) w [].
Proof. intros Hc. unfold get_conn, gets, mbind, M_bind, bind. by rewrite Hc. Qed.

Lemma get_conn_dangling w self :
  conns w !! self = None → get_conn self w = mkOut (Raise ReferenceError) w [].
Proof. intros Hc. unfold get_conn, gets, mbind, M_bind, bind. by rewrite Hc. Qed.

Section Teardown.

(** [die] on a connection in the pumping state runs to its end. *)
Lemma die_pumping w self c cw ct :
  pumping w self c cw ct →
  ∃ ps', list_remove self (protocols w) = Some ps' ∧
    die self w =
      mkOut (Ok tt) (die_world self c cw ct ps' w)
        (removal_log c :: teardown_io c cw ct).
Proof.
  intros (Hc & Ha & Hcw & Hct & Hin & Hnd).
  destruct (list_remove_present self _ Hin) as (l1 & l2 & Hps & Hl1 & Hr).
  exists (l1 ++ l2). split; [done|].
  unfold die, get_conn, gets, mbind, M_bind, bind. rewrite Hc.
  cbn [ret prepend res after emitted]. rewrite Ha, Hcw, Hct.
  unfold writer_close, cancel, remove, update_conn, logger_info, emit,
    modify, gets, not_None, ret, mbind, M_bind, bind, removal_log.
  destruct (player c); cbn; rewrite Hr; reflexivity.
Qed.

(** [die] on a connection whose [_alive] flag is down does nothing. *)
Lemma die_dead w self c :
  conns w !! self = Some c → _alive c = false →
  die self w = mkOut (Ok tt) w [].
Proof.
  intros Hc Ha.
  unfold die, get_conn, gets, mbind, M_bind, bind. rewrite Hc.
  cbn [ret prepend res after emitted]. by rewrite Ha.
Qed.

Lemma die_world_torn_down w self c cw ct ps' :
  pumping w self c cw ct → list_remove self (protocols w) = Some ps' →
  torn_down (die_world self c cw ct ps' w) self c cw ct.
Proof.
  intros (Hc & Ha & Hcw & Hct & Hin & Hnd) Hr.
  destruct (list_remove_NoDup _ _ _ Hnd Hr) as [Hout _].
  unfold torn_down, die_world; cbn.
  split_and!; try set_solver.
  rewrite lookup_alter_eq, Hc. done.
Qed.

Lemma die_world_dead w self c cw ct ps' :
  conns w !! self = Some c →
  ∃ c', conns (die_world self c cw ct ps' w) !! self = Some c' ∧
        _alive c' = false.
Proof.
  intros Hc. exists (set_alive false c). split; [|done].
  unfold die_world; cbn. by rewrite lookup_alter_eq, Hc.
Qed.

End Teardown.

Lemma StarryPyServer_init_eval reader writer w :
  StarryPyServer_init reader writer w =
    mkOut (Ok (next_id w))
      (set_conns <[next_id w :=
           mkConn reader writer None None None (S (next_id w)) None true None]>
         (set_tasks <[S (next_id w) := ServerLoop (next_id w)]>
            (set_next_id (λ _, S (S (next_id w))) w)))
      [EvLog WARNING "Initializing protocol."].
Proof. done. Qed.

Lemma ServerFactory_call_eval reader writer w :
  ServerFactory_call reader writer w =
    mkOut (Ok tt)
      (set_protocols (λ ps, ps ++ [next_id w])
         (after (StarryPyServer_init reader writer w)))
      [EvLog WARNING "Initializing protocol."].
Proof. done. Qed.


(** ** The framer: what a decoded frame records *)

Section FramerClaims.

Variable signed_vlq : list byte → option (Z * list byte * list byte).
Variable decompress : list byte → option (list byte).

(** The record [read_packet] returns for a frame whose payload, when
    compressed, inflates to [out]. *)
Lemma read_packet_frame r dir w t v d raw rest out :
  frame_at signed_vlq r w t v d raw rest →
  expected_payload decompress v raw = Some out →
  ∃ evs,
    read_packet signed_vlq decompress r dir w =
      mkOut (Ok (mkPacket (Z.of_N (Byte.to_N t)) (Z.abs v)
                          (bool_decide (v < 0)) out ([t] ++ d ++ raw) dir))
            (set_inbox <[r := rest]> w) evs.
Proof.
  intros Hf Hp. unfold expected_payload in Hp.
  destruct (decide (v < 0)) as [Hneg|Hpos].
  - rewrite bool_decide_eq_true_2 in Hp |- * by done.
    eexists. by apply read_packet_inflated.
  - rewrite bool_decide_eq_false_2 in Hp |- * by done.
    injection Hp as <-. eexists.
    rewrite (read_packet_plain signed_vlq decompress r dir w t v d raw rest)
      by (done || lia).
    by rewrite Z.abs_eq by lia.
Qed.

(** C1: decoding a valid frame (any type byte [t], any payload length,
    compressed or not) yields a record whose [original_data] is exactly the
    wire bytes of the frame — the type byte, the VLQ bytes as read, the raw
    payload before decompression — and the reader has consumed exactly
    those bytes. *)
Theorem read_packet_original_data r dir w t v d raw rest :
  frame_at signed_vlq r w t v d raw rest →
  is_Some (expected_payload decompress v raw) →
  ∃ p, res (read_packet signed_vlq decompress r dir w) = Ok p ∧
       pkt_original_data p = t :: d ++ raw ∧
       buffered r w = pkt_original_data p ++ rest ∧
       buffered r (after (read_packet signed_vlq decompress r dir w)) = rest.
Proof.
  intros Hf [out Hp].
  destruct (read_packet_frame r dir w t v d raw rest out Hf Hp) as [evs ->].
  eexists. split; [reflexivity|]. cbn [pkt_original_data after].
  split_and!; [done | | apply buffered_set_inbox].
  destruct Hf as (-> & _ & _). simpl. by rewrite <- app_assoc.
Qed.

(** C2: [compressed] is set exactly when the decoded VLQ is negative,
    [size] is its absolute value and the number of payload bytes read, and
    the payload is the decompression of the raw bytes for a compressed frame
    and the raw bytes themselves otherwise. *)
Theorem read_packet_fields r dir w t v d raw rest out :
  frame_at signed_vlq r w t v d raw rest →
  expected_payload decompress v raw = Some out →
  ∃ p, res (read_packet signed_vlq decompress r dir w) = Ok p ∧
       (pkt_compressed p = true ↔ v < 0) ∧
       pkt_size p = Z.abs v ∧
       pkt_size p = Z.of_nat (length raw) ∧
       pkt_data p = out ∧
       (pkt_compressed p = true → decompress raw = Some (pkt_data p)) ∧
       (pkt_compressed p = false → pkt_data p = raw).
Proof.
  intros Hf Hp.
  destruct (read_packet_frame r dir w t v d raw rest out Hf Hp) as [evs ->].
  eexists. split; [reflexivity|].
  cbn [pkt_compressed pkt_size pkt_data].
  destruct Hf as (_ & _ & Hl). unfold expected_payload in Hp.
  split_and!; [apply bool_decide_eq_true | done | done | done | |].
  - intros Hc. by rewrite Hc in Hp.
  - intros Hc. rewrite Hc in Hp. congruence.
Qed.

End FramerClaims.

Lemma read_packet_original_data_witness :
  ∃ p, res (read_packet spec_signed_vlq stored_inflate 7 "Client"
              (world_reading 7 (hi_frame ++ hello_frame))) = Ok p ∧
       pkt_original_data p = x04 :: [x19] ++ hi_zlib ∧
       buffered 7 (world_reading 7 (hi_frame ++ hello_frame)) =
         pkt_original_data p ++ hello_frame ∧
       buffered 7 (after (read_packet spec_signed_vlq stored_inflate 7 "Client"
                            (world_reading 7 (hi_frame ++ hello_frame)))) =
         hello_frame.
Proof.
  apply (read_packet_original_data spec_signed_vlq stored_inflate 7 "Client"
           _ x04 (-13) [x19] hi_zlib hello_frame).
  - repeat split.
  - exists [x68; x69]. vm_compute. reflexivity.
Defined.

Lemma read_packet_fields_witness :
  ∃ p, res (read_packet spec_signed_vlq stored_inflate 7 "Client"
              (world_reading 7 (hi_frame ++ hello_frame))) = Ok p ∧
       (pkt_compressed p = true ↔ -13 < 0) ∧
       pkt_size p = Z.abs (-13) ∧
       pkt_size p = Z.of_nat (length hi_zlib) ∧
       pkt_data p = [x68; x69] ∧
       (pkt_compressed p = true → stored_inflate hi_zlib = Some (pkt_data p)) ∧
       (pkt_compressed p = false → pkt_data p = hi_zlib).
Proof.
  apply (read_packet_fields spec_signed_vlq stored_inflate 7 "Client"
           _ x04 (-13) [x19] hi_zlib hello_frame [x68; x69]).
  - repeat split.
  - vm_compute. reflexivity.
Defined.

(** ** Teardown is idempotent *)

(** One [die] on a pumping connection, and the next one. *)
Lemma die_once w self c cw ct :
  pumping w self c cw ct →
  res (die self w) = Ok tt ∧
  io_of (emitted (die self w)) = teardown_io c cw ct ∧
  torn_down (after (die self w)) self c cw ct ∧
  inbox (after (die self w)) = inbox w ∧
  die self (after (die self w)) = mkOut (Ok tt) (after (die self w)) [].
Proof.
  intros Hp. destruct (die_pumping w self c cw ct Hp) as (ps' & Hr & ->).
  cbn [prepend res after emitted].
  destruct (die_world_dead w self c cw ct ps') as (c' & Hc' & Ha');
    [apply Hp|].
  split_and!.
  - done.
  - unfold removal_log. by destruct (player c).
  - by apply die_world_torn_down.
  - done.
  - by apply (die_dead _ _ c').
Qed.

(** C5: the first [die] on a live connection closes both transports,
    cancels both loop tasks and takes the connection out of the registry;
    every later [die] changes nothing and performs no effect. *)
Theorem die_idempotent w self c cw ct :
  pumping w self c cw ct →
  res (die self w) = Ok tt ∧
  io_of (emitted (die self w)) = teardown_io c cw ct ∧
  torn_down (after (die self w)) self c cw ct ∧
  die self (after (die self w)) = mkOut (Ok tt) (after (die self w)) [] ∧
  ∀ n, Nat.iter n (λ w', after (die self w')) (after (die self w)) =
       after (die self w).
Proof.
  intros Hp.
  destruct (die_once w self c cw ct Hp) as (Hres & Hio & Htd & _ & Hagain).
  split_and!; [done..|].
  induction n as [|n IH]; [done|]. simpl. rewrite IH. by rewrite Hagain.
Qed.

(** ** A frame that does not inflate *)

Section CorruptFrame.

Variable signed_vlq : list byte → option (Z * list byte * list byte).
Variable decompress : list byte → option (list byte).
Variable packets : gmap Z string.
Variable plugin_do : nat → string → Packet → M bool.
Variable others : World → World.

Lemma pumping_set_inbox f w self c cw ct :
  pumping w self c cw ct → pumping (set_inbox f w) self c cw ct.
Proof. done. Qed.

(** The turn of the downstream loop that meets the frame. *)
Lemma server_body_corrupt w self c t v d raw rest :
  conns w !! self = Some c →
  frame_at signed_vlq (_reader c) w t v d raw rest →
  v < 0 → decompress raw = None →
  server_body signed_vlq decompress packets plugin_do others self w =
    mkOut (Raise zlib_error) (set_inbox <[_reader c := rest]> w)
          (compressed_logs ++ [EvLog EXCEPTION "Couldn't decompress packet."]).
Proof.
  intros Hc Hf Hneg Hz. unfold server_body.
  rewrite (bind_Ok _ _ _ _ _ _ (get_conn_eval w self c Hc)).
  erewrite bind_Raise; [reflexivity|].
  by apply (read_packet_corrupt _ _ _ _ _ t v d raw rest).
Qed.

(** The turn of the upstream loop that meets the frame. *)
Lemma client_body_corrupt w self c cr t v d raw rest :
  conns w !! self = Some c → _client_reader c = Some cr →
  frame_at signed_vlq cr w t v d raw rest →
  v < 0 → decompress raw = None →
  client_body signed_vlq decompress packets plugin_do others self w =
    mkOut (Raise zlib_error) (set_inbox <[cr := rest]> w)
          (compressed_logs ++ [EvLog EXCEPTION "Couldn't decompress packet."]).
Proof.
  intros Hc Hcr Hf Hneg Hz. unfold client_body.
  rewrite (bind_Ok _ _ _ _ _ _ (get_conn_eval w self c Hc)).
  rewrite Hcr. erewrite bind_Ok by reflexivity.
  erewrite bind_Raise; [reflexivity|].
  by apply (read_packet_corrupt _ _ _ _ _ t v d raw rest).
Qed.

(** A loop whose first turn raises [e] runs the teardown and ends with
    [e]. *)
Lemma pump_fails (body : M unit) (loop : nat → M unit) fuel w self c cw ct
    w1 e evs :
  (∀ n w', loop (S n) w' = (body ;; loop n) w') →
  body w = mkOut (Raise e) w1 evs →
  pumping w1 self c cw ct →
  let o := try_finally (loop (S fuel)) (die self) w in
  res o = Raise e ∧
  emitted o = evs ++ emitted (die self w1) ∧
  after o = after (die self w1).
Proof.
  intros Hloop Hbody Hp. cbn zeta. unfold try_finally.
  rewrite Hloop. rewrite (bind_Raise _ _ _ _ _ _ Hbody).
  cbn [prepend res after emitted].
  destruct (die_pumping w1 self c cw ct Hp) as (ps' & Hr & ->).
  done.
Qed.

(** C6: when the payload of a compressed frame does not decompress,
    [read_packet] logs the failure and raises the error again; the loop
    that read the frame ends with that error, nothing more is read, and the
    connection is torn down once: both transports closed, both tasks
    cancelled, the connection out of the registry, and any further [die]
    without effect.  Stated for the downstream loop and for the upstream
    loop. *)
Theorem corrupt_frame_tears_down w self c cr cw ct t v d raw rest fuel :
  pumping w self c cw ct → _client_reader c = Some cr →
  v < 0 → decompress raw = None →
  (∀ r dir, frame_at signed_vlq r w t v d raw rest →
     res (read_packet signed_vlq decompress r dir w) = Raise zlib_error ∧
     EvLog EXCEPTION "Couldn't decompress packet." ∈
       emitted (read_packet signed_vlq decompress r dir w)) ∧
  (frame_at signed_vlq (_reader c) w t v d raw rest →
     fatal_decode
       (server_pump signed_vlq decompress packets plugin_do others
          (S fuel) self w) self c cw ct (_reader c) rest) ∧
  (frame_at signed_vlq cr w t v d raw rest →
     fatal_decode
       (client_loop signed_vlq decompress packets plugin_do others
          (S fuel) self w) self c cw ct cr rest).
Proof.
  intros Hp Hcr Hneg Hz.
  assert (∀ (o : Out unit) r w1,
    res o = Raise zlib_error ∧
    emitted o = (compressed_logs ++
      [EvLog EXCEPTION "Couldn't decompress packet."]) ++ emitted (die self w1) ∧
    after o = after (die self w1) →
    w1 = set_inbox <[r := rest]> w →
    fatal_decode o self c cw ct r rest) as Hfatal.
  { intros o r w1 (Hres & Hev & Haft) ->.
    destruct (die_once (set_inbox <[r := rest]> w) self c cw ct)
      as (_ & Hio & Htd & Hin & Hagain); [by apply pumping_set_inbox|].
    unfold fatal_decode. rewrite Hres, Hev, Haft.
    split_and!; [done | | | done | | done].
    - rewrite !elem_of_app. left; right. by apply list_elem_of_singleton.
    - unfold io_of in *. rewrite filter_app. by rewrite Hio.
    - unfold buffered. rewrite Hin. apply buffered_set_inbox. }
  split_and!.
  - intros r dir Hf.
    rewrite (read_packet_corrupt signed_vlq decompress r dir w t v d raw rest)
      by done.
    split; [done|]. cbn [emitted]. rewrite elem_of_app. right.
    by apply list_elem_of_singleton.
  - intros Hf. eapply Hfatal; [|reflexivity]. unfold server_pump.
    eapply (pump_fails
      (server_body signed_vlq decompress packets plugin_do others self)
      (λ n, server_while signed_vlq decompress packets plugin_do others n self));
      [done | | by apply pumping_set_inbox].
    apply (server_body_corrupt w self c t v d raw rest); [apply Hp | done..].
  - intros Hf. eapply Hfatal; [|reflexivity]. unfold client_loop.
    eapply (pump_fails
      (client_body signed_vlq decompress packets plugin_do others self)
      (λ n, client_while signed_vlq decompress packets plugin_do others n self));
      [done | | by apply pumping_set_inbox].
    apply (client_body_corrupt w self c cr t v d raw rest);
      [apply Hp | done..].
Qed.

End CorruptFrame.

(** ** Writing to the peers *)

Section Writes.

Variable signed_vlq : list byte → option (Z * list byte * list byte).
Variable decompress : list byte → option (list byte).
Variable ChatReceived_build : ChatDict → list byte.
Variable build_packet : Z → list byte → list byte.
Variable packets : gmap Z string.
Variable plugin_do : nat → string → Packet → M bool.
Variable others : World → World.

Lemma drain_eval writer w :
  drain others writer w =
    mkOut (drain_res writer w) (drain_after others writer w) [EvDrain writer].
Proof.
  unfold drain, drain_res, drain_after, mbind, M_bind, bind, gets, emit.
  cbn [prepend res after emitted]. by destruct (broken w !! writer).
Qed.

Lemma write_client_eval w self c cw packet :
  conns w !! self = Some c → _client_writer c = Some cw →
  write_client others self packet w =
    mkOut (drain_res (_writer c) w) (drain_after others (_writer c) w)
          [EvWrite cw (pkt_original_data packet); EvDrain (_writer c)].
Proof.
  intros Hc Hcw. unfold write_client, get_conn, gets, writer_write, emit.
  unfold mbind, M_bind, bind. cbn [prepend res after emitted]. rewrite Hc.
  cbn [prepend res after emitted ret]. rewrite Hcw. cbn [not_None ret res after emitted].
  rewrite drain_eval. cbn [prepend res after emitted].
  by destruct (drain_res (_writer c) w).
Qed.

Lemma write_eval w self c packet :
  conns w !! self = Some c →
  write others self packet w =
    mkOut (drain_res (_writer c) w) (drain_after others (_writer c) w)
          [EvWrite (_writer c) (pkt_original_data packet); EvDrain (_writer c)].
Proof.
  intros Hc. unfold write, get_conn, gets, writer_write, emit.
  unfold mbind, M_bind, bind. cbn [prepend res after emitted]. rewrite Hc.
  cbn [prepend res after emitted ret].
  rewrite drain_eval. cbn [prepend res after emitted].
  by destruct (drain_res (_writer c) w).
Qed.

Lemma raw_write_eval w self c data :
  conns w !! self = Some c →
  raw_write others self data w =
    mkOut (drain_res (_writer c) w) (drain_after others (_writer c) w)
          [EvWrite (_writer c) data; EvDrain (_writer c)].
Proof.
  intros Hc. unfold raw_write, get_conn, gets, writer_write, emit.
  unfold mbind, M_bind, bind. cbn [prepend res after emitted]. rewrite Hc.
  cbn [prepend res after emitted ret].
  rewrite drain_eval. cbn [prepend res after emitted].
  by destruct (drain_res (_writer c) w).
Qed.

Lemma send_message_eval w self c message world client_id name channel :
  conns w !! self = Some c →
  send_message ChatReceived_build build_packet others self message world
      client_id name channel w =
    if bool_decide (state c = Some CONNECTED_WITH_HEARTBEAT)
    then mkOut (drain_res (_writer c) w) (drain_after others (_writer c) w)
           [EvWrite (_writer c)
              (build_packet 4 (ChatReceived_build
                 (mkChat message world client_id name channel)));
            EvDrain (_writer c)]
    else mkOut (Ok tt) w [].
Proof.
  intros Hc. unfold send_message, get_conn, gets.
  unfold mbind, M_bind, bind. cbn [prepend res after emitted]. rewrite Hc.
  cbn [prepend res after emitted ret]. case_bool_decide; [|done].
  rewrite (raw_write_eval w self c) by done. done.
Qed.

(** C4: [send_message] writes nothing, to no stream, when the state of the
    connection is not [CONNECTED_WITH_HEARTBEAT]; when it is, it writes one
    frame — the output of the packet builder for the chat packet — to the
    client stream, and nothing else. *)
Theorem send_message_gate w self c message world client_id name channel :
  conns w !! self = Some c →
  (state c ≠ Some CONNECTED_WITH_HEARTBEAT →
     send_message ChatReceived_build build_packet others self message world
       client_id name channel w = mkOut (Ok tt) w []) ∧
  (state c = Some CONNECTED_WITH_HEARTBEAT →
     writes_of (emitted
       (send_message ChatReceived_build build_packet others self message world
          client_id name channel w)) =
     [(_writer c,
       build_packet 4 (ChatReceived_build
         (mkChat message world client_id name channel)))]).
Proof.
  intros Hc. rewrite (send_message_eval w self c) by done. split; intros Hs.
  - by rewrite bool_decide_eq_false_2.
  - by rewrite bool_decide_eq_true_2.
Qed.

(** C3 (what the code does): in a turn of the downstream loop, a frame
    whose verdict is drop causes no write; a frame whose verdict is forward
    has its original bytes written to the upstream writer, and the flush
    that follows is requested on [_writer], the stream of the game client,
    not on the upstream writer. *)
Theorem server_body_verdict w self c t v d raw rest out name verdict w2 evs2
    c2 cw2 :
  conns w !! self = Some c →
  frame_at signed_vlq (_reader c) w t v d raw rest →
  expected_payload decompress v raw = Some out →
  packets !! Z.of_N (Byte.to_N t) = Some name →
  plugin_do self name (client_packet t v d raw out)
    (set_inbox <[_reader c := rest]> w) = mkOut (Ok verdict) w2 evs2 →
  conns w2 !! self = Some c2 → _client_writer c2 = Some cw2 →
  ∃ logs,
    io_of logs = [] ∧
    emitted (server_body signed_vlq decompress packets plugin_do others
               self w) =
      logs ++ evs2 ++
      (if verdict
       then [EvWrite cw2 ([t] ++ d ++ raw); EvDrain (_writer c2)]
       else []).
Proof.
  intros Hc Hf Hp Hn Hplug Hc2 Hcw2.
  destruct (read_packet_frame signed_vlq decompress (_reader c) "Client"
              w t v d raw rest out Hf Hp) as [logs Hrd].
  assert (io_of logs = []) as Hlogs.
  { unfold expected_payload in Hp.
    destruct (decide (v < 0)) as [Hneg|Hpos].
    - rewrite bool_decide_eq_true_2 in Hp by done.
      rewrite (read_packet_inflated signed_vlq decompress _ _ _ _ _ _ _ _ _
                 Hf Hneg Hp) in Hrd.
      apply (f_equal emitted) in Hrd. cbn [emitted] in Hrd. by subst logs.
    - rewrite (read_packet_plain signed_vlq decompress _ "Client" _ _ _ _ _ _
                 Hf) in Hrd by lia.
      apply (f_equal emitted) in Hrd. cbn [emitted] in Hrd. by subst logs. }
  exists logs. split; [done|].
  unfold server_body.
  rewrite (bind_Ok _ _ _ _ _ _ (get_conn_eval w self c Hc)).
  rewrite (bind_Ok _ _ _ _ _ _ Hrd).
  unfold check_plugins. cbn [pkt_type]. rewrite Hn.
  fold (client_packet t v d raw out).
  rewrite (bind_Ok _ _ _ _ _ _ Hplug).
  cbn [prepend emitted app]. do 2 f_equal.
  destruct verdict; [|done].
  by rewrite (write_client_eval w2 self c2 cw2).
Qed.

End Writes.

(** ** The registry *)

(** C8 (as the code has it): [ServerFactory.remove] takes the first
    occurrence of the connection out of the registry, comparing by
    identity; when the connection is absent it raises [ValueError] and
    leaves the registry as it was. *)
Theorem remove_first_or_ValueError w protocol :
  (protocol ∈ protocols w →
     ∃ l1 l2, protocols w = l1 ++ protocol :: l2 ∧ (protocol ∉ l1) ∧
       remove protocol w =
         mkOut (Ok tt) (set_protocols (λ _, l1 ++ l2) w) []) ∧
  (protocol ∉ protocols w →
     remove protocol w = mkOut (Raise ValueError) w []).
Proof.
  split; intros Hin; unfold remove, gets, mbind, M_bind, bind.
  - destruct (list_remove_present _ _ Hin) as (l1 & l2 & Hps & Hl1 & Hr).
    exists l1, l2. split_and!; [done..|]. by rewrite Hr.
  - by rewrite (list_remove_absent _ _ Hin).
Qed.

(** ** Dialling the real server *)

Section Dial.

Variable signed_vlq : list byte → option (Z * list byte * list byte).
Variable decompress : list byte → option (list byte).
Variable packets : gmap Z string.
Variable plugin_do : nat → string → Packet → M bool.
Variable others : World → World.

(** C9 (as the code has it): when the dial of the real server fails, the
    server-loop task of that connection ends with the dial error before any
    pump loop starts; it performs no effect at all — no teardown runs, so
    the client socket is not closed by it and the connection stays in the
    registry. *)
Theorem dial_failure_skips_teardown w self fuel e :
  upstream_down (others w) = Some e →
  server_loop signed_vlq decompress packets plugin_do others fuel self w =
    mkOut (Raise e) (others w) [] ∧
  protocols (after (server_loop signed_vlq decompress packets plugin_do
                      others fuel self w)) = protocols (others w) ∧
  closed (after (server_loop signed_vlq decompress packets plugin_do
                   others fuel self w)) = closed (others w).
Proof.
  intros Hd.
  assert (open_connection others w = mkOut (Raise e) (others w) []) as Hopen.
  { unfold open_connection, suspend, modify, gets, mbind, M_bind, bind.
    by rewrite Hd. }
  unfold server_loop, server_connect.
  rewrite (bind_Raise _ _ _ _ _ _ (bind_Raise _ _ _ _ _ _ Hopen)). done.
Qed.

(** A connection accepted by the factory whose dial succeeds reaches the
    pumping state: this is the state in which both loops, and any teardown
    they start, find it. *)
Lemma accept_and_connect w reader writer :
  NoDup (protocols w) → next_id w ∉ protocols w →
  registry_stable others →
  upstream_down (others (after (ServerFactory_call reader writer w))) = None →
  ∃ c cw ct,
    res (server_connect others (next_id w)
           (after (ServerFactory_call reader writer w))) = Ok tt ∧
    pumping (after (server_connect others (next_id w)
                      (after (ServerFactory_call reader writer w))))
            (next_id w) c cw ct ∧
    _reader c = reader ∧ _writer c = writer ∧ state c = None.
Proof.
  intros Hnd Hfresh Hst Hup.
  rewrite ServerFactory_call_eval, StarryPyServer_init_eval in *.
  cbn [after] in *.
  set (w1 := set_protocols _ _) in *.
  destruct (Hst w1) as (Hps & Hcs & _).
  exists (mkConn reader writer (Some (next_id (others w1)))
            (Some (next_id (others w1))) (Some (S (next_id (others w1))))
            (S (next_id w)) None true None),
         (next_id (others w1)), (S (next_id (others w1))).
  unfold server_connect, open_connection, suspend, Task, new_object,
    update_conn, modify, gets, mbind, M_bind, bind.
  rewrite Hup. cbn.
  split_and!; try done. unfold pumping. cbn. rewrite Hps, Hcs.
  split_and!; try done.
  - rewrite !lookup_alter_eq. subst w1. cbn. by rewrite lookup_insert_eq.
  - subst w1. cbn. apply elem_of_app. right. apply list_elem_of_here.
  - subst w1. cbn. apply NoDup_app. split_and!; [done | | apply NoDup_singleton].
    intros x Hx Hx'. apply list_elem_of_singleton in Hx' as ->. done.
Qed.

End Dial.

(** ** Broadcast *)

Section Broadcast.

Variable ChatReceived_build : ChatDict → list byte.
Variable build_packet : Z → list byte → list byte.
Variable others : World → World.

(** One visit of the loop of [broadcast]: [send_message] under the
    [except ConnectionError] clause. *)
Lemma visit_eval w p c message world client_id name channel :
  conns w !! p = Some c →
  try_except
    (send_message ChatReceived_build build_packet others p message world
       client_id name channel)
    (λ e, if is_ConnectionError e then ret tt else raise e) w =
  if bool_decide (state c = Some CONNECTED_WITH_HEARTBEAT)
  then mkOut
         (match broken w !! _writer c with
          | Some e => if is_ConnectionError e then Ok tt else Raise e
          | None => Ok tt
          end)
         (drain_after others (_writer c) w)
         [EvWrite (_writer c)
            (chat_frame ChatReceived_build build_packet message world
               client_id name channel);
          EvDrain (_writer c)]
  else mkOut (Ok tt) w [].
Proof.
  intros Hc. unfold try_except.
  rewrite (send_message_eval ChatReceived_build build_packet others w p c)
    by done.
  case_bool_decide; [|done].
  unfold drain_res, drain_after.
  destruct (broken w !! _writer c) as [e|]; [|done].
  by destruct (is_ConnectionError e).
Qed.

Lemma same_registry_drain_after w' w writer :
  registry_stable others → same_registry w' w →
  same_registry (drain_after others writer w') w.
Proof.
  intros Hst (Hp & Hc & Hb). unfold drain_after.
  destruct (broken w' !! writer); [done|].
  destruct (Hst w') as (Hp' & Hc' & Hb').
  split_and!; congruence.
Qed.

Lemma broadcast_from_step fuel i message world name channel client_id w :
  broadcast_from ChatReceived_build build_packet others (S fuel) i
    message world name channel client_id w =
  match protocols w !! i with
  | Some p =>
      (try_except
         (send_message ChatReceived_build build_packet others p message world
            client_id name channel)
         (λ e, if is_ConnectionError e then ret tt else raise e);;
       broadcast_from ChatReceived_build build_packet others fuel (S i)
         message world name channel client_id) w
  | None => mkOut (Ok tt) w []
  end.
Proof.
  cbn [broadcast_from]. unfold gets.
  unfold mbind at 1, M_bind at 1, bind at 1. rewrite prepend_nil.
  by destruct (protocols w !! i).
Qed.

Lemma recipients_cons w p ps :
  recipients w (p :: ps) =
  match listening w p with
  | Some wr => wr :: recipients w ps
  | None => recipients w ps
  end.
Proof. done. Qed.

(** The loop of [broadcast] from position [i] on, when nobody else touches
    the registry: it reaches the end of the list, writing the frame to every
    connection past the handshake. *)
Lemma broadcast_from_stable w message world name channel client_id :
  registry_stable others → registry_live w → only_connection_errors w →
  ∀ fuel i w',
    same_registry w' w →
    (length (protocols w) - i < fuel)%nat →
    res (broadcast_from ChatReceived_build build_packet others fuel i
           message world name channel client_id w') = Ok tt ∧
    writes_of (emitted
      (broadcast_from ChatReceived_build build_packet others fuel i
         message world name channel client_id w')) =
      (λ wr, (wr, chat_frame ChatReceived_build build_packet message world
                    client_id name channel)) <$>
        recipients w (drop i (protocols w)) ∧
    same_registry
      (after (broadcast_from ChatReceived_build build_packet others fuel i
                message world name channel client_id w')) w.
Proof.
  intros Hst Hlive Herr. induction fuel as [|fuel IH]; intros i w' Hsame Hfuel;
    [lia|].
  rewrite broadcast_from_step.
  destruct Hsame as (Hps & Hcs & Hbr). rewrite Hps.
  destruct (protocols w !! i) as [p|] eqn:Hi.
  - assert (p ∈ protocols w) as Hin by by eapply list_elem_of_lookup_2.
    pose proof (lookup_lt_Some _ _ _ Hi) as Hlt.
    destruct (Hlive p Hin) as [c Hc].
    rewrite (drop_S _ _ _ Hi), recipients_cons.
    unfold listening at 1. rewrite Hc.
    assert (conns w' !! p = Some c) as Hc' by by rewrite Hcs.
    pose proof (visit_eval w' p c message world client_id name channel Hc')
      as Hvisit.
    assert (same_registry (drain_after others (_writer c) w') w) as Hsame'
      by by apply same_registry_drain_after.
    case_bool_decide as Hstate.
    + assert (match broken w' !! _writer c with
              | Some e => if is_ConnectionError e then Ok tt else Raise e
              | None => Ok tt
              end = Ok tt) as Hok.
      { rewrite Hbr. destruct (broken w !! _writer c) as [e|] eqn:He; [|done].
        by rewrite (Herr p c e Hin Hc Hstate He). }
      rewrite Hok in Hvisit.
      rewrite (bind_Ok _ _ _ _ _ _ Hvisit).
      destruct (IH (S i) _ Hsame') as (Hres & Hwr & Hafter); [lia|].
      cbn [prepend res after emitted]. split_and!; [done | | done].
      unfold writes_of in *. rewrite omap_app, Hwr. done.
    + rewrite (bind_Ok _ _ _ _ _ _ Hvisit), prepend_nil.
      by apply IH; [|lia].
  - apply lookup_ge_None_1 in Hi. rewrite (drop_ge _ _ Hi).
    cbn. done.
Qed.

(** C7 (as the code has it): [broadcast] walks the registry list itself; a
    [ConnectionError] raised while sending to one connection is caught and
    the walk goes on, so that — when no other task touches the registry
    meanwhile and the only failures are [ConnectionError]s — every
    registered connection past the handshake is written the frame, whatever
    happened to the ones before it.  An exception of another class is not
    caught: it ends the walk where it stands. *)
Theorem broadcast_skips_connection_errors w fuel message world name channel
    client_id :
  (registry_stable others → registry_live w → only_connection_errors w →
   (length (protocols w) < fuel)%nat →
   res (broadcast ChatReceived_build build_packet others fuel
          message world name channel client_id w) = Ok tt ∧
   writes_of (emitted
     (broadcast ChatReceived_build build_packet others fuel
        message world name channel client_id w)) =
     (λ wr, (wr, chat_frame ChatReceived_build build_packet message world
                   client_id name channel)) <$>
       recipients w (protocols w)) ∧
  (∀ i p c e,
     protocols w !! i = Some p → conns w !! p = Some c →
     state c = Some CONNECTED_WITH_HEARTBEAT →
     broken w !! _writer c = Some e → is_ConnectionError e = false →
     res (broadcast_from ChatReceived_build build_packet others (S fuel) i
            message world name channel client_id w) = Raise e ∧
     writes_of (emitted
       (broadcast_from ChatReceived_build build_packet others (S fuel) i
          message world name channel client_id w)) =
       [(_writer c, chat_frame ChatReceived_build build_packet message world
                      client_id name channel)]).
Proof.
  split.
  - intros Hst Hlive Herr Hfuel. unfold broadcast.
    destruct (broadcast_from_stable w message world name channel client_id
                Hst Hlive Herr fuel 0%nat w) as (Hres & Hwr & _);
      [done | lia |].
    by rewrite drop_0 in Hwr.
  - intros i p c e Hi Hc Hstate He Hcls.
    rewrite broadcast_from_step, Hi.
    pose proof (visit_eval w p c message world client_id name channel Hc)
      as Hvisit.
    rewrite bool_decide_eq_true_2 in Hvisit by done.
    rewrite He, Hcls in Hvisit.
    rewrite (bind_Raise _ _ _ _ _ _ Hvisit). done.
Qed.

End Broadcast.

(** ** The [state] attribute is left to the interception layer *)

Create HintDb keeps.

Lemma keeps_ret {A} (a : A) : keeps_states (ret a).
Proof. done. Qed.

Lemma keeps_mret {A} (a : A) : keeps_states (mret a : M A).
Proof. done. Qed.

Lemma keeps_raise {A} e : keeps_states (raise e : M A).
Proof. done. Qed.

Lemma keeps_out_of_fuel {A} : keeps_states (out_of_fuel : M A).
Proof. done. Qed.

Lemma keeps_gets {A} (f : World → A) : keeps_states (gets f).
Proof. done. Qed.

Lemma keeps_emit ev : keeps_states (emit ev).
Proof. done. Qed.

Lemma keeps_modify f :
  (∀ w, states (f w) = states w) → keeps_states (modify f).
Proof. intros Hf w. apply Hf. Qed.

Lemma keeps_bind {A B} (m : M A) (k : A → M B) :
  keeps_states m → (∀ a, keeps_states (k a)) → keeps_states (m ≫= k).
Proof.
  intros Hm Hk w. unfold mbind, M_bind, bind.
  specialize (Hm w). destruct (m w) as [[a|e|] w1 evs]; cbn in *; [|done..].
  by rewrite Hk.
Qed.

Lemma keeps_try_except {A} (body : M A) handler :
  keeps_states body → (∀ e, keeps_states (handler e)) →
  keeps_states (try_except body handler).
Proof.
  intros Hm Hk w. unfold try_except.
  specialize (Hm w). destruct (body w) as [[a|e|] w1 evs]; cbn in *; [done| |done].
  by rewrite Hk.
Qed.

Lemma keeps_try_finally {A} (body : M A) final :
  keeps_states body → keeps_states final →
  keeps_states (try_finally body final).
Proof.
  intros Hm Hk w. unfold try_finally.
  specialize (Hm w). destruct (body w) as [[a|e|] w1 evs]; cbn in *; [| |done].
  all: specialize (Hk w1); destruct (final w1) as [[[]|e'|] w2 evs'];
    cbn in *; congruence.
Qed.

Lemma states_alter f self w :
  (∀ c, state (f c) = state c) →
  states (set_conns (alter f self) w) = states w.
Proof.
  intros Hf. unfold states, set_conns; cbn. apply map_eq. intros i.
  rewrite !lookup_fmap. destruct (decide (i = self)) as [->|Hne].
  - rewrite lookup_alter_eq. destruct (conns w !! self); cbn; [|done].
    by rewrite Hf.
  - by rewrite lookup_alter_ne.
Qed.

#[local] Hint Resolve keeps_ret keeps_mret keeps_raise keeps_out_of_fuel
  keeps_gets keeps_emit : keeps.

Ltac keeps_step :=
  first
    [ solve [auto with keeps]
    | apply keeps_bind; [|intros ?]
    | apply keeps_try_except; [|intros ?]
    | apply keeps_try_finally
    | apply keeps_modify; intros ?; reflexivity
    | match goal with
      | |- keeps_states (match ?x with _ => _ end) => destruct x
      | |- keeps_states (if ?b then _ else _) => destruct b
      end ].

Ltac keeps := repeat keeps_step.

Lemma keeps_readexactly r n : keeps_states (readexactly r n).
Proof. intros w. unfold readexactly. by case_decide. Qed.

Lemma keeps_ord b : keeps_states (ord b).
Proof. unfold ord. keeps. Qed.

#[local] Hint Resolve keeps_readexactly keeps_ord : keeps.

Section KeepsStates.

Variable signed_vlq : list byte → option (Z * list byte * list byte).
Variable decompress : list byte → option (list byte).
Variable ChatReceived_build : ChatDict → list byte.
Variable build_packet : Z → list byte → list byte.
Variable packets : gmap Z string.
Variable plugin_do : nat → string → Packet → M bool.
Variable others : World → World.

Hypothesis others_keep : ∀ w, states (others w) = states w.
Hypothesis plugins_keep : ∀ self name p, keeps_states (plugin_do self name p).

Lemma keeps_read_signed_vlq r : keeps_states (read_signed_vlq signed_vlq r).
Proof.
  intros w. unfold read_signed_vlq.
  by destruct (signed_vlq (buffered r w)) as [[[v d] rest]|].
Qed.

Lemma keeps_read_packet r dir :
  keeps_states (read_packet signed_vlq decompress r dir).
Proof.
  pose proof keeps_read_signed_vlq.
  unfold read_packet, logger_debug, logger_exception, zlib_decompress. keeps.
Qed.

Lemma keeps_suspend : keeps_states (suspend others).
Proof. intros w. apply others_keep. Qed.

Lemma keeps_drain writer : keeps_states (drain others writer).
Proof. pose proof keeps_suspend. unfold drain. keeps. Qed.

Lemma keeps_get_conn self : keeps_states (get_conn self).
Proof. unfold get_conn. keeps. Qed.

Lemma keeps_not_None {A} (o : option A) : keeps_states (not_None o).
Proof. unfold not_None. keeps. Qed.

Lemma keeps_update_conn self f :
  (∀ c, state (f c) = state c) → keeps_states (update_conn self f).
Proof. intros Hf w. by apply states_alter. Qed.

Lemma keeps_remove protocol : keeps_states (remove protocol).
Proof. unfold remove. keeps. Qed.

Lemma keeps_die self : keeps_states (die self).
Proof.
  pose proof keeps_get_conn. pose proof keeps_remove.
  pose proof (keeps_update_conn self (set_alive false) (λ _, eq_refl)).
  unfold die, writer_close, cancel, logger_info, not_None. keeps.
Qed.

Lemma keeps_write self packet : keeps_states (write others self packet).
Proof.
  pose proof keeps_get_conn. pose proof keeps_drain.
  unfold write, writer_write. keeps.
Qed.

Lemma keeps_raw_write self data : keeps_states (raw_write others self data).
Proof.
  pose proof keeps_get_conn. pose proof keeps_drain.
  unfold raw_write, writer_write. keeps.
Qed.

Lemma keeps_write_client self packet :
  keeps_states (write_client others self packet).
Proof.
  pose proof keeps_get_conn. pose proof keeps_drain.
  unfold write_client, writer_write, not_None. keeps.
Qed.

Lemma keeps_send_message self message world client_id name channel :
  keeps_states (send_message ChatReceived_build build_packet others self
                  message world client_id name channel).
Proof.
  pose proof keeps_get_conn. pose proof keeps_raw_write.
  unfold send_message. keeps.
Qed.

Lemma keeps_check_plugins self packet :
  keeps_states (check_plugins packets plugin_do self packet).
Proof. unfold check_plugins. keeps. Qed.

Lemma keeps_server_body self :
  keeps_states
    (server_body signed_vlq decompress packets plugin_do others self).
Proof.
  pose proof keeps_get_conn. pose proof keeps_read_packet.
  pose proof keeps_check_plugins. pose proof keeps_write_client.
  unfold server_body. keeps.
Qed.

Lemma keeps_client_body self :
  keeps_states
    (client_body signed_vlq decompress packets plugin_do others self).
Proof.
  pose proof keeps_get_conn. pose proof keeps_read_packet.
  pose proof keeps_check_plugins. pose proof keeps_write.
  unfold client_body, not_None. keeps.
Qed.

Lemma keeps_server_while fuel self :
  keeps_states
    (server_while signed_vlq decompress packets plugin_do others fuel self).
Proof.
  pose proof keeps_server_body.
  induction fuel as [|fuel IH]; cbn [server_while]; keeps.
Qed.

Lemma keeps_client_while fuel self :
  keeps_states
    (client_while signed_vlq decompress packets plugin_do others fuel self).
Proof.
  pose proof keeps_client_body.
  induction fuel as [|fuel IH]; cbn [client_while]; keeps.
Qed.

Lemma keeps_client_loop fuel self :
  keeps_states
    (client_loop signed_vlq decompress packets plugin_do others fuel self).
Proof.
  pose proof keeps_client_while. pose proof keeps_die.
  unfold client_loop. keeps.
Qed.

Lemma keeps_new_object : keeps_states new_object.
Proof. unfold new_object. keeps. Qed.

Lemma keeps_Task coro : keeps_states (Task coro).
Proof. pose proof keeps_new_object. unfold Task. keeps. Qed.

Lemma keeps_server_loop fuel self :
  keeps_states
    (server_loop signed_vlq decompress packets plugin_do others fuel self).
Proof.
  pose proof keeps_server_while. pose proof keeps_die.
  pose proof keeps_suspend. pose proof keeps_new_object. pose proof keeps_Task.
  unfold server_loop, server_connect, server_pump, open_connection.
  repeat first
    [ apply keeps_update_conn; intros ?; reflexivity | keeps_step ].
Qed.

Lemma keeps_broadcast_from fuel i message world name channel client_id :
  keeps_states
    (broadcast_from ChatReceived_build build_packet others fuel i
       message world name channel client_id).
Proof.
  pose proof keeps_send_message.
  revert i. induction fuel as [|fuel IH]; intros i; cbn [broadcast_from];
    [keeps|].
  apply keeps_bind; [keeps|]. intros ps.
  destruct (ps !! i); [|keeps].
  apply keeps_bind; [|intros _; apply IH].
  apply keeps_try_except; [done|]. intros e.
  destruct (is_ConnectionError e); keeps.
Qed.

End KeepsStates.

Section StateClaims.

Variable signed_vlq : list byte → option (Z * list byte * list byte).
Variable decompress : list byte → option (list byte).
Variable ChatReceived_build : ChatDict → list byte.
Variable build_packet : Z → list byte → list byte.
Variable packets : gmap Z string.
Variable plugin_do : nat → string → Packet → M bool.
Variable others : World → World.

(** C10: a connection leaves its constructor with [state = None], which is
    none of the seven stages; no code of the core assigns the attribute —
    as long as the interception layer and the other tasks leave the states
    alone, every operation of the core does; and on a connection whose
    state is still [None], [send_message] writes nothing. *)
Theorem state_left_to_interception :
  (∀ reader writer w,
     res (StarryPyServer_init reader writer w) = Ok (next_id w) ∧
     (∃ c, conns (after (StarryPyServer_init reader writer w)) !! next_id w
             = Some c ∧
           state c = None ∧ (∀ s : State, state c ≠ Some s)) ∧
     states (after (ServerFactory_call reader writer w)) =
       <[next_id w := None]> (states w)) ∧
  ((∀ w, states (others w) = states w) →
   (∀ self name p, keeps_states (plugin_do self name p)) →
   ∀ self fuel i packet data message world name channel client_id r dir,
     keeps_states (read_packet signed_vlq decompress r dir) ∧
     keeps_states (die self) ∧
     keeps_states (remove self) ∧
     keeps_states (write others self packet) ∧
     keeps_states (raw_write others self data) ∧
     keeps_states (write_client others self packet) ∧
     keeps_states (send_message ChatReceived_build build_packet others self
                     message world client_id name channel) ∧
     keeps_states (server_loop signed_vlq decompress packets plugin_do
                     others fuel self) ∧
     keeps_states (client_loop signed_vlq decompress packets plugin_do
                     others fuel self) ∧
     keeps_states (broadcast_from ChatReceived_build build_packet others
                     fuel i message world name channel client_id)) ∧
  (∀ w self c message world name channel client_id,
     conns w !! self = Some c → state c = None →
     send_message ChatReceived_build build_packet others self
       message world client_id name channel w = mkOut (Ok tt) w []).
Proof.
  split_and!.
  - intros reader writer w. split_and!.
    + done.
    + rewrite StarryPyServer_init_eval. cbn [after set_conns conns].
      rewrite lookup_insert_eq. eexists. split; [done|]. by split.
    + rewrite ServerFactory_call_eval, StarryPyServer_init_eval.
      unfold states. cbn. by rewrite fmap_insert.
  - intros Ho Hp self fuel i packet data message world name channel
      client_id r dir.
    split_and!.
    + apply keeps_read_packet.
    + apply keeps_die.
    + apply keeps_remove.
    + by apply keeps_write.
    + by apply keeps_raw_write.
    + by apply keeps_write_client.
    + by apply keeps_send_message.
    + by apply keeps_server_loop.
    + by apply keeps_client_loop.
    + by apply keeps_broadcast_from.
  - intros w self c message world name channel client_id Hc Hs.
    rewrite (send_message_eval ChatReceived_build build_packet others w self c)
      by done.
    rewrite bool_decide_eq_false_2; [done|]. by rewrite Hs.
Qed.

End StateClaims.

(** ** The theorems on concrete states *)

Lemma server_body_verdict_witness :
  ∃ logs,
    io_of logs = [] ∧
    emitted (server_body spec_signed_vlq stored_inflate demo_packets
               forward_all no_others 10 hello_waiting) =
      logs ++ [] ++ [EvWrite 2 hello_frame; EvDrain 1].
Proof.
  apply (server_body_verdict spec_signed_vlq stored_inflate demo_packets
           forward_all no_others hello_waiting 10%nat conn_A
           x04 5 [x0a] [x68; x65; x6c; x6c; x6f] [] [x68; x65; x6c; x6c; x6f]
           "chat_received" true
           (set_inbox <[1%nat := []]> hello_waiting) [] conn_A 2%nat).
  - reflexivity.
  - repeat split.
  - reflexivity.
  - reflexivity.
  - reflexivity.
  - reflexivity.
  - reflexivity.
Defined.

(** The downstream loop run on the "hello" frame until the stream ends:
    the frame goes to the upstream writer 2, the flush to the client writer
    1, and the upstream writer is never flushed. *)
Example upstream_never_flushed :
  io_of (emitted (server_pump spec_signed_vlq stored_inflate demo_packets
                    forward_all no_others 2 10 hello_waiting)) =
  [EvWrite 2 hello_frame; EvDrain 1;
   EvClose 1; EvClose 2; EvCancel 11; EvCancel 12].
Proof. vm_compute. reflexivity. Qed.

(** The same run under an interception layer that drops every frame:
    nothing is written. *)
Example dropped_frame_not_written :
  writes_of (emitted (server_pump spec_signed_vlq stored_inflate demo_packets
                        drop_all no_others 2 10 hello_waiting)) = [].
Proof. vm_compute. reflexivity. Qed.

Lemma send_message_gate_witness :
  (state conn_A ≠ Some CONNECTED_WITH_HEARTBEAT →
     send_message demo_chat demo_build_packet no_others 10 "hi" "" 0 "" 0
       two_clients = mkOut (Ok tt) two_clients []) ∧
  (state conn_A = Some CONNECTED_WITH_HEARTBEAT →
     writes_of (emitted
       (send_message demo_chat demo_build_packet no_others 10 "hi" "" 0 "" 0
          two_clients)) =
     [(_writer conn_A, demo_build_packet 4 (demo_chat (mkChat "hi" "" 0 "" 0)))]).
Proof.
  apply (send_message_gate demo_chat demo_build_packet no_others
           two_clients 10%nat conn_A "hi" "" 0 "" 0).
  reflexivity.
Defined.

Lemma die_idempotent_witness :
  res (die 10 two_clients) = Ok tt ∧
  io_of (emitted (die 10 two_clients)) = teardown_io conn_A 2 12 ∧
  torn_down (after (die 10 two_clients)) 10 conn_A 2 12 ∧
  die 10 (after (die 10 two_clients)) =
    mkOut (Ok tt) (after (die 10 two_clients)) [] ∧
  ∀ n, Nat.iter n (λ w', after (die 10 w')) (after (die 10 two_clients)) =
       after (die 10 two_clients).
Proof.
  apply (die_idempotent two_clients 10%nat conn_A 2%nat 12%nat).
  split_and!; try reflexivity.
  - apply list_elem_of_here.
  - apply (bool_decide_unpack _). reflexivity.
Defined.

Lemma corrupt_frame_tears_down_witness :
  (∀ r dir, frame_at spec_signed_vlq r corrupt_waiting x04 (-3) [x05]
              [xff; xff; xff] hello_frame →
     res (read_packet spec_signed_vlq stored_inflate r dir corrupt_waiting) =
       Raise zlib_error ∧
     EvLog EXCEPTION "Couldn't decompress packet." ∈
       emitted (read_packet spec_signed_vlq stored_inflate r dir
                  corrupt_waiting)) ∧
  fatal_decode
    (server_pump spec_signed_vlq stored_inflate demo_packets forward_all
       no_others 1 10 corrupt_waiting) 10 conn_A 2 12 1 hello_frame ∧
  fatal_decode
    (client_loop spec_signed_vlq stored_inflate demo_packets forward_all
       no_others 1 10 corrupt_waiting) 10 conn_A 2 12 2 hello_frame.
Proof.
  destruct (corrupt_frame_tears_down spec_signed_vlq stored_inflate
              demo_packets forward_all no_others corrupt_waiting 10%nat
              conn_A 2%nat 2%nat 12%nat x04 (-3) [x05] [xff; xff; xff]
              hello_frame 0%nat) as (Hread & Hdown & Hup).
  - split_and!; try reflexivity.
    + apply list_elem_of_here.
    + apply (bool_decide_unpack _). reflexivity.
  - reflexivity.
  - reflexivity.
  - reflexivity.
  - split_and!.
    + exact Hread.
    + apply Hdown. repeat split.
    + apply Hup. repeat split.
Defined.

Lemma remove_first_or_ValueError_witness :
  (∃ l1 l2, protocols two_clients = l1 ++ 20%nat :: l2 ∧ (20%nat ∉ l1) ∧
     remove 20 two_clients =
       mkOut (Ok tt) (set_protocols (λ _, l1 ++ l2) two_clients) []) ∧
  remove 30 two_clients = mkOut (Raise ValueError) two_clients [].
Proof.
  destruct (remove_first_or_ValueError two_clients 20%nat) as [Hin _].
  destruct (remove_first_or_ValueError two_clients 30%nat) as [_ Hout].
  split.
  - apply Hin. apply (bool_decide_unpack _). reflexivity.
  - apply Hout. apply (bool_decide_unpack _). reflexivity.
Defined.

(** Counterexample to C8 as stated: removing a connection that is not in the
    registry is not a silent no-op; [ValueError] is raised. *)
Lemma remove_absent_raises :
  res (remove 30 two_clients) = Raise ValueError ∧
  res (remove 30 two_clients) ≠ Ok tt.
Proof. split; [reflexivity | discriminate]. Qed.

Lemma dial_failure_skips_teardown_witness :
  server_loop spec_signed_vlq stored_inflate demo_packets forward_all
    no_others 5 10 upstream_unreachable =
    mkOut (Raise ConnectionRefusedError) (no_others upstream_unreachable) [] ∧
  protocols (after (server_loop spec_signed_vlq stored_inflate demo_packets
                      forward_all no_others 5 10 upstream_unreachable)) =
    protocols (no_others upstream_unreachable) ∧
  closed (after (server_loop spec_signed_vlq stored_inflate demo_packets
                   forward_all no_others 5 10 upstream_unreachable)) =
    closed (no_others upstream_unreachable).
Proof.
  apply (dial_failure_skips_teardown spec_signed_vlq stored_inflate
           demo_packets forward_all no_others upstream_unreachable 10%nat
           5%nat ConnectionRefusedError).
  reflexivity.
Defined.

(** Counterexample to C9 as stated: after a failed dial the connection is still in
    the registry, still marked alive, and its client socket has not been
    closed. *)
Lemma dial_failure_leaks_connection :
  protocols upstream_unreachable = [10%nat] ∧
  res (server_loop spec_signed_vlq stored_inflate demo_packets forward_all
         no_others 5 10 upstream_unreachable) = Raise ConnectionRefusedError ∧
  10%nat ∈ protocols
    (after (server_loop spec_signed_vlq stored_inflate demo_packets
              forward_all no_others 5 10 upstream_unreachable)) ∧
  (_alive <$> conns
     (after (server_loop spec_signed_vlq stored_inflate demo_packets
               forward_all no_others 5 10 upstream_unreachable)) !! 10%nat) =
    Some true ∧
  (_writer <$> conns upstream_unreachable !! 10%nat) = Some 1%nat ∧
  1%nat ∉ closed
    (after (server_loop spec_signed_vlq stored_inflate demo_packets
              forward_all no_others 5 10 upstream_unreachable)).
Proof.
  split_and!; try reflexivity.
  - apply list_elem_of_here.
  - assert (closed (after (server_loop spec_signed_vlq stored_inflate
              demo_packets forward_all no_others 5 10 upstream_unreachable))
            = ∅) as -> by reflexivity.
    apply not_elem_of_empty.
Qed.

Lemma broadcast_skips_connection_errors_witness :
  (res (broadcast demo_chat demo_build_packet no_others 3 "hi" "" "" 0 0
          (client_A_broken ConnectionResetError)) = Ok tt ∧
   writes_of (emitted
     (broadcast demo_chat demo_build_packet no_others 3 "hi" "" "" 0 0
        (client_A_broken ConnectionResetError))) =
     [(1%nat, hi_chat); (3%nat, hi_chat)]) ∧
  (res (broadcast_from demo_chat demo_build_packet no_others 4 0
          "hi" "" "" 0 0 (client_A_broken TimeoutError)) = Raise TimeoutError ∧
   writes_of (emitted
     (broadcast_from demo_chat demo_build_packet no_others 4 0
        "hi" "" "" 0 0 (client_A_broken TimeoutError))) =
     [(1%nat, hi_chat)]).
Proof.
  destruct (broadcast_skips_connection_errors demo_chat demo_build_packet
              no_others (client_A_broken ConnectionResetError) 3%nat
              "hi" "" "" 0 0) as [Hall _].
  destruct (broadcast_skips_connection_errors demo_chat demo_build_packet
              no_others (client_A_broken TimeoutError) 3%nat
              "hi" "" "" 0 0) as [_ Hstop].
  split.
  - apply Hall.
    + intros w. done.
    + intros p Hp. apply (bool_decide_unpack _). revert p Hp.
      apply Forall_forall. apply (bool_decide_unpack _). reflexivity.
    + intros p c e Hp Hc Hs Hb.
      apply elem_of_cons in Hp as [->|Hp].
      * injection Hc as <-. injection Hb as <-. reflexivity.
      * apply list_elem_of_singleton in Hp as ->.
        injection Hc as <-. discriminate Hb.
    + cbn. lia.
  - apply (Hstop 0%nat 10%nat conn_A TimeoutError); reflexivity.
Defined.

(** Counterexample to C7 as stated.  First run: the flush on the client stream of
    connection 10 raises [TimeoutError], which is no [ConnectionError]; the
    broadcast ends with it and connection 20 is never written to.  Second
    run: no stream fails, but connection 10 is torn down while the broadcast
    is suspended in its flush; the walk over the live list then skips
    connection 20, which is still registered. *)
Lemma broadcast_not_isolated :
  (res (broadcast demo_chat demo_build_packet no_others 3 "hi" "" "" 0 0
          (client_A_broken TimeoutError)) = Raise TimeoutError ∧
   (3%nat, hi_chat) ∉
     writes_of (emitted
       (broadcast demo_chat demo_build_packet no_others 3 "hi" "" "" 0 0
          (client_A_broken TimeoutError)))) ∧
  (res (broadcast demo_chat demo_build_packet A_leaves 3 "hi" "" "" 0 0
          two_clients) = Ok tt ∧
   protocols (after
     (broadcast demo_chat demo_build_packet A_leaves 3 "hi" "" "" 0 0
        two_clients)) = [20%nat] ∧
   listening (after
     (broadcast demo_chat demo_build_packet A_leaves 3 "hi" "" "" 0 0
        two_clients)) 20 = Some 3%nat ∧
   (3%nat, hi_chat) ∉
     writes_of (emitted
       (broadcast demo_chat demo_build_packet A_leaves 3 "hi" "" "" 0 0
          two_clients))).
Proof.
  assert (∀ l, l = [(1%nat, hi_chat)] → (3%nat, hi_chat) ∉ l) as Hnot.
  { intros l -> Hin. apply list_elem_of_singleton in Hin. discriminate Hin. }
  split_and!; try reflexivity; apply Hnot; reflexivity.
Qed.

Lemma state_left_to_interception_witness :
  (∃ c, conns upstream_unreachable !! 10%nat = Some c ∧ state c = None) ∧
  keeps_states (die 10) ∧
  keeps_states (server_loop spec_signed_vlq stored_inflate demo_packets
                  forward_all no_others 5 10) ∧
  send_message demo_chat demo_build_packet no_others 10 "hi" "" 0 "" 0
    upstream_unreachable = mkOut (Ok tt) upstream_unreachable [].
Proof.
  destruct (state_left_to_interception spec_signed_vlq stored_inflate
              demo_chat demo_build_packet demo_packets forward_all no_others)
    as (Hinit & Hkeeps & Hsend).
  destruct (Hkeeps (λ w, eq_refl) (λ _ _ _ w, eq_refl) 10%nat 5%nat 0%nat
              (mkPacket 4 0 false [] [] "Client") [] "hi" "" "" 0 0
              1%nat "Client")
    as (_ & Hdie & _ & _ & _ & _ & _ & Hloop & _).
  destruct (Hinit 1%nat 1%nat
              (set_upstream_down (Some ConnectionRefusedError)
                 (set_next_id (λ _, 10%nat) empty_world)))
    as (_ & (c & Hc & Hs & _) & _).
  split_and!.
  - exists c. split; [exact Hc | exact Hs].
  - exact Hdie.
  - exact Hloop.
  - apply (Hsend upstream_unreachable 10%nat
             (mkConn 1 1 None None None 11 None true None)); reflexivity.
Defined.

(** From accept to teardown: the factory accepts the client as connection
    10 (server-loop task 11); the dial yields transport 12 and the
    client-loop task 13; the "hello" frame is relayed; the frame that does
    not inflate ends the loop and tears the connection down. *)
Example accepted_client_runs :
  let o := (ServerFactory_call 1 1;;
            server_loop spec_signed_vlq stored_inflate demo_packets
              forward_all no_others 5 10) fresh_process in
  res o = Raise zlib_error ∧
  io_of (emitted o) =
    [EvWrite 12 hello_frame; EvDrain 1;
     EvClose 1; EvClose 12; EvCancel 11; EvCancel 13] ∧
  protocols (after o) = [] ∧
  (_alive <$> conns (after o) !! 10%nat) = Some false.
Proof. vm_compute. done. Qed.

(** ** More on the framer *)

Lemma same_but_reader_refl r w : same_but_reader r w w.
Proof. by repeat split. Qed.

Lemma same_but_reader_trans r w1 w2 w3 :
  same_but_reader r w1 w2 → same_but_reader r w2 w3 → same_but_reader r w1 w3.
Proof.
  intros (H1 & H2 & H3 & H4 & H5 & H6 & H7 & H8 & H9)
         (K1 & K2 & K3 & K4 & K5 & K6 & K7 & K8 & K9).
  repeat split; try congruence.
  intros r' Hr'. by rewrite K3, H3.
Qed.

Lemma same_but_reader_set_inbox r buf w :
  same_but_reader r w (set_inbox <[r := buf]> w).
Proof.
  repeat split. intros r' Hr'. cbn. by rewrite lookup_insert_ne.
Qed.

Lemma io_of_app evs evs' : io_of (evs ++ evs') = io_of evs ++ io_of evs'.
Proof. apply filter_app. Qed.

Lemma reads_only_ret r {A} (a : A) : reads_only r (ret a).
Proof. intros w. split; [apply same_but_reader_refl | done]. Qed.

Lemma reads_only_raise r {A} e : reads_only r (raise e : M A).
Proof. intros w. split; [apply same_but_reader_refl | done]. Qed.

Lemma reads_only_log r lvl msg : reads_only r (emit (EvLog lvl msg)).
Proof. intros w. split; [apply same_but_reader_refl | done]. Qed.

Lemma reads_only_bind r {A B} (m : M A) (k : A → M B) :
  reads_only r m → (∀ a, reads_only r (k a)) → reads_only r (m ≫= k).
Proof.
  intros Hm Hk w. unfold mbind, M_bind, bind.
  destruct (Hm w) as [Hw Hio]. destruct (m w) as [[a|e|] w1 evs];
    cbn [res after emitted prepend] in *; [|done..].
  destruct (Hk a w1) as [Hw1 Hio1]. split.
  - by eapply same_but_reader_trans.
  - by rewrite io_of_app, Hio, Hio1.
Qed.

Lemma reads_only_try_except r {A} (body : M A) handler :
  reads_only r body → (∀ e, reads_only r (handler e)) →
  reads_only r (try_except body handler).
Proof.
  intros Hm Hk w. unfold try_except.
  destruct (Hm w) as [Hw Hio]. destruct (body w) as [[a|e|] w1 evs];
    cbn [res after emitted prepend] in *; [done| |done].
  destruct (Hk e w1) as [Hw1 Hio1]. split.
  - by eapply same_but_reader_trans.
  - by rewrite io_of_app, Hio, Hio1.
Qed.

Lemma reads_only_readexactly r n : reads_only r (readexactly r n).
Proof.
  intros w. unfold readexactly.
  case_decide; (split; [apply same_but_reader_set_inbox | done]).
Qed.

Lemma reads_only_ord r b : reads_only r (ord b).
Proof.
  unfold ord. destruct b as [|x [|y b]];
    auto using reads_only_ret, reads_only_raise.
Qed.

Section FramerEdges.

Variable signed_vlq : list byte → option (Z * list byte * list byte).
Variable decompress : list byte → option (list byte).

Lemma reads_only_read_signed_vlq r :
  reads_only r (read_signed_vlq signed_vlq r).
Proof.
  intros w. unfold read_signed_vlq.
  destruct (signed_vlq (buffered r w)) as [[[v d] rest]|];
    (split; [apply same_but_reader_set_inbox | done]).
Qed.

Lemma reads_only_read_packet r dir :
  reads_only r (read_packet signed_vlq decompress r dir).
Proof.
  unfold read_packet, logger_debug, logger_exception, zlib_decompress.
  repeat first
    [ apply reads_only_log
    | apply reads_only_readexactly
    | apply reads_only_ord
    | apply reads_only_read_signed_vlq
    | apply reads_only_ret
    | apply reads_only_raise
    | apply reads_only_bind; [|intros ?]
    | apply reads_only_try_except; [|intros ?]
    | match goal with
      | |- reads_only _ (match ?x with _ => _ end) => destruct x
      | |- reads_only _ (if ?b then _ else _) => destruct b
      end ].
Qed.

(** X1: whatever the reader holds, and however the call ends, [read_packet]
    only consumes bytes of its own reader and writes log records: the
    connections, the registry, the bytes waiting on the other readers, the
    closed and failed writers and the tasks are as before, and no write,
    flush, close or cancellation is performed. *)
Theorem read_packet_touches_only_reader r dir w :
  conns (after (read_packet signed_vlq decompress r dir w)) = conns w ∧
  protocols (after (read_packet signed_vlq decompress r dir w)) =
    protocols w ∧
  (∀ r', r' ≠ r →
     buffered r' (after (read_packet signed_vlq decompress r dir w)) =
       buffered r' w) ∧
  closed (after (read_packet signed_vlq decompress r dir w)) = closed w ∧
  broken (after (read_packet signed_vlq decompress r dir w)) = broken w ∧
  cancelled (after (read_packet signed_vlq decompress r dir w)) =
    cancelled w ∧
  io_of (emitted (read_packet signed_vlq decompress r dir w)) = [].
Proof.
  destruct (reads_only_read_packet r dir w)
    as ((H1 & H2 & H3 & H4 & H5 & H6 & H7 & H8 & H9) & Hio).
  split_and!; try done.
  intros r' Hr'. unfold buffered. by rewrite H3.
Qed.

(** X2: at the end of the stream (nothing left on the reader) [read_packet]
    raises [IncompleteReadError] and returns no packet. *)
Theorem read_packet_end_of_stream r dir w :
  buffered r w = [] →
  res (read_packet signed_vlq decompress r dir w) = Raise IncompleteReadError ∧
  buffered r (after (read_packet signed_vlq decompress r dir w)) = [].
Proof.
  intros Hb. unfold read_packet, logger_debug, emit.
  unfold mbind, M_bind, bind. cbn [prepend res after emitted].
  rewrite readexactly_short by (rewrite Hb; cbn; lia).
  cbn [prepend res after emitted]. split; [done|]. apply buffered_set_inbox.
Qed.

(** X3: a frame cut short by the end of the stream — inside the size field,
    or with fewer payload bytes than the size announces — is never returned
    as a packet: [read_packet] raises [IncompleteReadError] and the reader
    is left empty. *)
Theorem read_packet_truncated r dir w t s :
  buffered r w = t :: s →
  (signed_vlq s = None ∨
   ∃ v d tl, signed_vlq s = Some (v, d, tl) ∧ Z.of_nat (length tl) < Z.abs v) →
  res (read_packet signed_vlq decompress r dir w) = Raise IncompleteReadError ∧
  buffered r (after (read_packet signed_vlq decompress r dir w)) = [].
Proof.
  intros Hb Hcut. unfold read_packet, logger_debug, emit.
  unfold mbind, M_bind, bind. cbn [prepend res after emitted].
  rewrite (readexactly_prefix r 1 [t] s) by done.
  cbn [prepend res after emitted ord ret].
  unfold read_signed_vlq. rewrite buffered_set_inbox.
  destruct Hcut as [Hnone|(v & d & tl & Hv & Hlen)].
  - rewrite Hnone. cbn [prepend res after emitted].
    split; [done|]. apply buffered_set_inbox.
  - rewrite Hv. cbn [prepend res after emitted].
    rewrite readexactly_short.
    + cbn [prepend res after emitted]. split; [done|]. apply buffered_set_inbox.
    + rewrite buffered_set_inbox. case_bool_decide; lia.
Qed.

End FramerEdges.

(** ** More on teardown and the registry *)

Lemma filter_ne_absent (x : nat) (l : list nat) :
  x ∉ l → filter (λ y, y ≠ x) l = l.
Proof.
  induction l as [|y l IH]; intros Hx; [done|].
  apply not_elem_of_cons in Hx as [Hne Hx].
  rewrite filter_cons_True by done. by rewrite IH.
Qed.

Lemma list_remove_filter x l l' :
  NoDup l → list_remove x l = Some l' → l' = filter (λ y, y ≠ x) l.
Proof.
  intros Hnd Hr.
  destruct (decide (x ∈ l)) as [Hin|Hnin];
    [|by rewrite list_remove_absent in Hr].
  destruct (list_remove_present x l Hin) as (l1 & l2 & -> & Hl1 & Hr').
  rewrite Hr' in Hr. injection Hr as <-.
  apply NoDup_app in Hnd as (_ & _ & Hnd2).
  apply NoDup_cons in Hnd2 as [Hx2 _].
  rewrite filter_app, filter_cons_False by (intros Hne; by apply Hne).
  by rewrite !filter_ne_absent.
Qed.

Lemma list_remove_subset x l l' y :
  list_remove x l = Some l' → y ∈ l' → y ∈ l.
Proof.
  intros Hr Hy.
  destruct (decide (x ∈ l)) as [Hin|Hnin];
    [|by rewrite list_remove_absent in Hr].
  destruct (list_remove_present x l Hin) as (l1 & l2 & -> & Hl1 & Hr').
  rewrite Hr' in Hr. injection Hr as <-.
  rewrite !elem_of_app in *. rewrite elem_of_cons. tauto.
Qed.

(** What [die] can do to the registry and to the supply of identities,
    however it ends. *)
Lemma die_registry self w :
  next_id (after (die self w)) = next_id w ∧
  (protocols (after (die self w)) = protocols w ∨
   list_remove self (protocols w) = Some (protocols (after (die self w)))).
Proof.
  unfold die, get_conn, gets, mbind, M_bind, bind.
  destruct (conns w !! self) as [c|]; cbn; [|by auto].
  destruct (_alive c); cbn; [|by auto].
  unfold writer_close, cancel, remove, update_conn, logger_info, emit,
    modify, gets, not_None, ret, raise, mbind, M_bind, bind.
  destruct (player c), (_client_writer c), (_client_loop_future c); cbn;
    try (by auto);
    destruct (list_remove self (protocols w)); cbn; by auto.
Qed.

(** X11: [die] on a connection whose upstream was never opened (the dial
    failed, or has not finished) closes the client writer, then fails with
    [AttributeError] on the missing upstream writer: no task is cancelled,
    the connection stays in the registry with [_alive] set, and a second
    [die] closes the client writer again. *)
Theorem die_without_upstream w self c :
  conns w !! self = Some c → _alive c = true → _client_writer c = None →
  res (die self w) = Raise AttributeError ∧
  io_of (emitted (die self w)) = [EvClose (_writer c)] ∧
  conns (after (die self w)) = conns w ∧
  protocols (after (die self w)) = protocols w ∧
  closed (after (die self w)) = {[_writer c]} ∪ closed w ∧
  cancelled (after (die self w)) = cancelled w ∧
  io_of (emitted (die self (after (die self w)))) = [EvClose (_writer c)].
Proof.
  intros Hc Ha Hcw.
  assert (∀ w', conns w' = conns w →
    die self w' = mkOut (Raise AttributeError)
                    (set_closed ({[_writer c]} ∪.) w')
                    [removal_log c; EvClose (_writer c)]) as Hdie.
  { intros w' Hw'.
    unfold die, get_conn, gets, mbind, M_bind, bind. rewrite Hw', Hc.
    cbn [ret prepend res after emitted]. rewrite Ha, Hcw.
    unfold writer_close, logger_info, emit, modify, not_None, raise,
      mbind, M_bind, bind, removal_log.
    by destruct (player c). }
  rewrite (Hdie w eq_refl). cbn [res after emitted].
  rewrite (Hdie (set_closed ({[_writer c]} ∪.) w) eq_refl).
  cbn [res after emitted].
  unfold removal_log. by destruct (player c).
Qed.

(** X12: [die] on a live, connected connection that is not in the registry
    closes both writers and cancels both tasks, then fails with
    [ValueError] in [ServerFactory.remove]; [_alive] is still set, so a
    second [die] performs the same closes and cancels again. *)
Theorem die_unregistered w self c cw ct :
  conns w !! self = Some c → _alive c = true →
  _client_writer c = Some cw → _client_loop_future c = Some ct →
  self ∉ protocols w →
  res (die self w) = Raise ValueError ∧
  io_of (emitted (die self w)) = teardown_io c cw ct ∧
  conns (after (die self w)) = conns w ∧
  protocols (after (die self w)) = protocols w ∧
  io_of (emitted (die self (after (die self w)))) = teardown_io c cw ct.
Proof.
  intros Hc Ha Hcw Hct Hout.
  assert (∀ w', conns w' = conns w → protocols w' = protocols w →
    die self w' = mkOut (Raise ValueError)
      (set_cancelled ({[ct]} ∪.)
        (set_cancelled ({[_server_loop_future c]} ∪.)
          (set_closed ({[cw]} ∪.)
            (set_closed ({[_writer c]} ∪.) w'))))
      (removal_log c :: teardown_io c cw ct)) as Hdie.
  { intros w' Hw' Hps.
    unfold die, get_conn, gets, mbind, M_bind, bind. rewrite Hw', Hc.
    cbn [ret prepend res after emitted]. rewrite Ha, Hcw, Hct.
    unfold writer_close, cancel, remove, update_conn, logger_info, emit,
      modify, gets, not_None, ret, raise, mbind, M_bind, bind, removal_log.
    destruct (player c); cbn; rewrite Hps, (list_remove_absent _ _ Hout);
      reflexivity. }
  rewrite (Hdie w eq_refl eq_refl). cbn [res after emitted].
  rewrite (Hdie (set_cancelled ({[ct]} ∪.)
             (set_cancelled ({[_server_loop_future c]} ∪.)
               (set_closed ({[cw]} ∪.)
                 (set_closed ({[_writer c]} ∪.) w)))) eq_refl eq_refl).
  cbn [res after emitted].
  unfold removal_log. by destruct (player c).
Qed.

(** X13: [__del__] never raises: whatever [die] does — succeed, or fail on a
    half-built connection — the call returns normally, with the state and
    the effects [die] produced. *)
Theorem StarryPyServer_del_never_raises self w :
  res (StarryPyServer_del self w) = Ok tt ∧
  after (StarryPyServer_del self w) = after (die self w) ∧
  emitted (StarryPyServer_del self w) = emitted (die self w).
Proof.
  unfold StarryPyServer_del, try_except.
  destruct (die self w) as [[[]|e|] w1 evs] eqn:Hdie; cbn.
  - done.
  - by rewrite app_nil_r.
  - exfalso. revert Hdie.
    unfold die, get_conn, gets, mbind, M_bind, bind.
    destruct (conns w !! self) as [c|]; cbn; [|done].
    destruct (_alive c); cbn; [|done].
    unfold writer_close, cancel, remove, update_conn, logger_info, emit,
      modify, gets, not_None, ret, raise, mbind, M_bind, bind.
    destruct (player c), (_client_writer c), (_client_loop_future c); cbn;
      try done;
      destruct (list_remove self (protocols w)); cbn; done.
Qed.

(** The registry after the teardown of a pumping connection. *)
Lemma die_pumping_protocols w self c cw ct :
  pumping w self c cw ct →
  protocols (after (die self w)) = filter (λ p, p ≠ self) (protocols w).
Proof.
  intros Hp. destruct (die_pumping w self c cw ct Hp) as (ps' & Hr & ->).
  destruct Hp as (_ & _ & _ & _ & _ & Hnd).
  cbn. by apply list_remove_filter.
Qed.

(** X14: tearing one connection down leaves the others as they were: their
    objects are untouched, they keep their place in the registry (the
    registry loses exactly the torn-down connection, the order of the rest
    is kept), no byte waiting on a reader is lost, and the only writers
    closed and tasks cancelled are those of the torn-down connection. *)
Theorem die_leaves_others w self c cw ct :
  pumping w self c cw ct →
  (∀ other, other ≠ self →
     conns (after (die self w)) !! other = conns w !! other) ∧
  protocols (after (die self w)) = filter (λ p, p ≠ self) (protocols w) ∧
  inbox (after (die self w)) = inbox w ∧
  closed (after (die self w)) = {[cw]} ∪ ({[_writer c]} ∪ closed w) ∧
  cancelled (after (die self w)) =
    {[ct]} ∪ ({[_server_loop_future c]} ∪ cancelled w).
Proof.
  intros Hp. destruct (die_pumping w self c cw ct Hp) as (ps' & Hr & ->).
  destruct Hp as (_ & _ & _ & _ & _ & Hnd).
  cbn [after]. unfold die_world. cbn.
  split_and!; try done.
  - intros other Hne. by rewrite lookup_alter_ne.
  - by apply list_remove_filter.
Qed.

(** X15: the registry stays well formed — each connection named once, every
    name that of an object already created — through every accept, every
    removal and every teardown, however the teardown ends. *)
Theorem registry_wf_preserved w :
  registry_wf w →
  (∀ reader writer, registry_wf (after (ServerFactory_call reader writer w))) ∧
  (∀ protocol, registry_wf (after (remove protocol w))) ∧
  (∀ self, registry_wf (after (die self w))).
Proof.
  intros [Hnd Hlt].
  assert (∀ x ps', list_remove x (protocols w) = Some ps' →
            NoDup ps' ∧ ∀ p, p ∈ ps' → (p < next_id w)%nat) as Hrem.
  { intros x ps' Hr. split.
    - by destruct (list_remove_NoDup _ _ _ Hnd Hr).
    - intros p Hp. apply Hlt. by eapply list_remove_subset. }
  split_and!.
  - intros reader writer.
    rewrite ServerFactory_call_eval, StarryPyServer_init_eval.
    unfold registry_wf. cbn. split.
    + apply NoDup_app. split_and!; [done | | apply NoDup_singleton].
      intros x Hx Hx'. apply list_elem_of_singleton in Hx' as ->.
      apply Hlt in Hx. lia.
    + intros p Hp. apply elem_of_app in Hp as [Hp|Hp].
      * apply Hlt in Hp. lia.
      * apply list_elem_of_singleton in Hp as ->. lia.
  - intros protocol. unfold remove, gets, mbind, M_bind, bind.
    destruct (list_remove protocol (protocols w)) as [ps'|] eqn:Hr; cbn.
    + by apply (Hrem protocol).
    + done.
  - intros self. destruct (die_registry self w) as [Hid [Hps|Hps]];
      unfold registry_wf; rewrite Hid.
    + by rewrite Hps.
    + by apply (Hrem self).
Qed.

(** ** More on the pump loops *)

Lemma writes_of_app evs evs' :
  writes_of (evs ++ evs') = writes_of evs ++ writes_of evs'.
Proof. apply omap_app. Qed.

Lemma writes_of_logs evs : io_of evs = [] → writes_of evs = [].
Proof.
  unfold io_of. induction evs as [|ev evs IH]; [done|].
  destruct ev.
  1: { rewrite filter_cons_False by (cbn; congruence).
       intros H. cbn. by apply IH. }
  all: rewrite filter_cons_True by done; intros H; discriminate H.
Qed.

Section PumpLoops.

Variable signed_vlq : list byte → option (Z * list byte * list byte).
Variable decompress : list byte → option (list byte).
Variable packets : gmap Z string.
Variable plugin_do : nat → string → Packet → M bool.
Variable others : World → World.

Lemma server_while_not_Ok fuel self w u :
  res (server_while signed_vlq decompress packets plugin_do others fuel self w)
  ≠ Ok u.
Proof.
  revert w. induction fuel as [|fuel IH]; intros w; cbn [server_while];
    [done|].
  unfold mbind, M_bind, bind.
  destruct (server_body _ _ _ _ _ self w) as [[[]|e|] w1 evs]; cbn; [|done..].
  apply IH.
Qed.

Lemma client_while_not_Ok fuel self w u :
  res (client_while signed_vlq decompress packets plugin_do others fuel self w)
  ≠ Ok u.
Proof.
  revert w. induction fuel as [|fuel IH]; intros w; cbn [client_while];
    [done|].
  unfold mbind, M_bind, bind.
  destruct (client_body _ _ _ _ _ self w) as [[[]|e|] w1 evs]; cbn; [|done..].
  apply IH.
Qed.

Lemma try_finally_not_Ok (body final : M unit) w u :
  (∀ u', res (body w) ≠ Ok u') → res (try_finally body final w) ≠ Ok u.
Proof.
  intros Hb. unfold try_finally.
  destruct (body w) as [[u'|e|] w1 evs]; cbn in *; [by destruct (Hb u')| |done].
  by destruct (final w1) as [[[]|e'|] w2 evs'].
Qed.

(** X4: the pump loops never return normally: [while True:] has no exit, so
    [server_loop] and [client_loop] end only with an exception (or are
    still running when the unrolling bound is reached). *)
Theorem pump_loops_never_return fuel self w :
  res (server_loop signed_vlq decompress packets plugin_do others fuel self w)
    ≠ Ok tt ∧
  res (client_loop signed_vlq decompress packets plugin_do others fuel self w)
    ≠ Ok tt.
Proof.
  split.
  - unfold server_loop, mbind, M_bind, bind.
    destruct (server_connect others self w) as [[[]|e|] w1 evs]; cbn;
      [|done..].
    unfold server_pump. apply try_finally_not_Ok.
    intros u. apply server_while_not_Ok.
  - unfold client_loop. apply try_finally_not_Ok.
    intros u. apply client_while_not_Ok.
Qed.

Lemma finally_die (body : M unit) w self c cw ct e w1 evs :
  body w = mkOut (Raise e) w1 evs → pumping w1 self c cw ct →
  exits_through_teardown (try_finally body (die self) w) self c cw ct e evs.
Proof.
  intros Hbody Hp. unfold try_finally. rewrite Hbody.
  destruct (die_pumping w1 self c cw ct Hp) as (ps' & Hr & ->).
  split_and!; cbn [res after emitted].
  - done.
  - rewrite io_of_app. f_equal. unfold removal_log. by destruct (player c).
  - rewrite writes_of_app.
    assert (writes_of (removal_log c :: teardown_io c cw ct) = []) as ->
      by (unfold removal_log; by destruct (player c)).
    by rewrite app_nil_r.
  - by apply die_world_torn_down.
Qed.

(** X5: whatever exception ends a pump loop, the teardown runs before the
    loop is left: if the [while] of either loop raises [e] in a state where
    the connection is still pumping, the loop ends with [e], the connection
    is torn down, and beyond what the loop had done the only effects are
    those of one teardown. *)
Theorem loop_exit_tears_down fuel w self c cw ct e w1 evs :
  pumping w1 self c cw ct →
  (server_while signed_vlq decompress packets plugin_do others fuel self w =
     mkOut (Raise e) w1 evs →
   exits_through_teardown
     (server_pump signed_vlq decompress packets plugin_do others fuel self w)
     self c cw ct e evs) ∧
  (client_while signed_vlq decompress packets plugin_do others fuel self w =
     mkOut (Raise e) w1 evs →
   exits_through_teardown
     (client_loop signed_vlq decompress packets plugin_do others fuel self w)
     self c cw ct e evs).
Proof.
  intros Hp. split; intros Hloop.
  - unfold server_pump. by apply finally_die with (w1 := w1).
  - unfold client_loop. by apply finally_die with (w1 := w1).
Qed.

Lemma read_packet_eof_eval r dir w :
  buffered r w = [] →
  read_packet signed_vlq decompress r dir w =
    mkOut (Raise IncompleteReadError) (set_inbox <[r := []]> w) eof_logs.
Proof.
  intros Hb. unfold read_packet, logger_debug, emit.
  unfold mbind, M_bind, bind. cbn [prepend res after emitted].
  rewrite readexactly_short by (rewrite Hb; cbn; lia). done.
Qed.

Lemma server_body_eof w self c :
  conns w !! self = Some c → buffered (_reader c) w = [] →
  server_body signed_vlq decompress packets plugin_do others self w =
    mkOut (Raise IncompleteReadError) (set_inbox <[_reader c := []]> w)
          eof_logs.
Proof.
  intros Hc Hb. unfold server_body.
  rewrite (bind_Ok _ _ _ _ _ _ (get_conn_eval w self c Hc)).
  by rewrite (bind_Raise _ _ _ _ _ _ (read_packet_eof_eval _ _ _ Hb)).
Qed.

Lemma client_body_eof w self c cr :
  conns w !! self = Some c → _client_reader c = Some cr →
  buffered cr w = [] →
  client_body signed_vlq decompress packets plugin_do others self w =
    mkOut (Raise IncompleteReadError) (set_inbox <[cr := []]> w) eof_logs.
Proof.
  intros Hc Hcr Hb. unfold client_body.
  rewrite (bind_Ok _ _ _ _ _ _ (get_conn_eval w self c Hc)).
  rewrite Hcr. erewrite bind_Ok by reflexivity.
  by rewrite (bind_Raise _ _ _ _ _ _ (read_packet_eof_eval _ _ _ Hb)).
Qed.

Lemma server_while_first fuel self w e w1 evs :
  server_body signed_vlq decompress packets plugin_do others self w =
    mkOut (Raise e) w1 evs →
  server_while signed_vlq decompress packets plugin_do others (S fuel) self w =
    mkOut (Raise e) w1 evs.
Proof. intros Hb. cbn [server_while]. by rewrite (bind_Raise _ _ _ _ _ _ Hb). Qed.

Lemma client_while_first fuel self w e w1 evs :
  client_body signed_vlq decompress packets plugin_do others self w =
    mkOut (Raise e) w1 evs →
  client_while signed_vlq decompress packets plugin_do others (S fuel) self w =
    mkOut (Raise e) w1 evs.
Proof. intros Hb. cbn [client_while]. by rewrite (bind_Raise _ _ _ _ _ _ Hb). Qed.

(** X6: when the peer closes its stream (the reader of a loop has nothing
    left), that loop ends with [IncompleteReadError] and the connection is
    torn down; nothing is written. *)
Theorem end_of_stream_tears_down fuel w self c cr cw ct :
  pumping w self c cw ct → _client_reader c = Some cr →
  (buffered (_reader c) w = [] →
   exits_through_teardown
     (server_pump signed_vlq decompress packets plugin_do others
        (S fuel) self w) self c cw ct IncompleteReadError []) ∧
  (buffered cr w = [] →
   exits_through_teardown
     (client_loop signed_vlq decompress packets plugin_do others
        (S fuel) self w) self c cw ct IncompleteReadError []).
Proof.
  intros Hp Hcr.
  assert (∀ o, exits_through_teardown o self c cw ct IncompleteReadError
                 eof_logs →
               exits_through_teardown o self c cw ct IncompleteReadError [])
    as Hlogs by done.
  split; intros Hb; apply Hlogs.
  - unfold server_pump. eapply finally_die.
    + apply server_while_first, server_body_eof; [apply Hp | done].
    + by apply pumping_set_inbox.
  - unfold client_loop. eapply finally_die.
    + apply client_while_first. eapply client_body_eof; [apply Hp | done..].
    + by apply pumping_set_inbox.
Qed.

(** The turn of the downstream loop on a frame whose type byte is not in
    the [packets] table. *)
Lemma server_body_unknown_type w self c t v d raw rest out :
  conns w !! self = Some c →
  frame_at signed_vlq (_reader c) w t v d raw rest →
  expected_payload decompress v raw = Some out →
  packets !! Z.of_N (Byte.to_N t) = None →
  ∃ logs, io_of logs = [] ∧
    server_body signed_vlq decompress packets plugin_do others self w =
      mkOut (Raise KeyError) (set_inbox <[_reader c := rest]> w) logs.
Proof.
  intros Hc Hf Hp Hn.
  destruct (read_packet_frame signed_vlq decompress (_reader c) "Client"
              w t v d raw rest out Hf Hp) as [logs Hrd].
  exists logs. split.
  - destruct (reads_only_read_packet signed_vlq decompress (_reader c)
                "Client" w) as [_ Hio].
    by rewrite Hrd in Hio.
  - unfold server_body.
    rewrite (bind_Ok _ _ _ _ _ _ (get_conn_eval w self c Hc)).
    rewrite (bind_Ok _ _ _ _ _ _ Hrd).
    unfold check_plugins. cbn [pkt_type]. rewrite Hn.
    unfold raise, mbind, M_bind, bind, prepend. cbn. by rewrite app_nil_r.
Qed.

Lemma client_body_unknown_type w self c cr t v d raw rest out :
  conns w !! self = Some c → _client_reader c = Some cr →
  frame_at signed_vlq cr w t v d raw rest →
  expected_payload decompress v raw = Some out →
  packets !! Z.of_N (Byte.to_N t) = None →
  ∃ logs, io_of logs = [] ∧
    client_body signed_vlq decompress packets plugin_do others self w =
      mkOut (Raise KeyError) (set_inbox <[cr := rest]> w) logs.
Proof.
  intros Hc Hcr Hf Hp Hn.
  destruct (read_packet_frame signed_vlq decompress cr "Server"
              w t v d raw rest out Hf Hp) as [logs Hrd].
  exists logs. split.
  - destruct (reads_only_read_packet signed_vlq decompress cr
                "Server" w) as [_ Hio].
    by rewrite Hrd in Hio.
  - unfold client_body.
    rewrite (bind_Ok _ _ _ _ _ _ (get_conn_eval w self c Hc)).
    rewrite Hcr. erewrite bind_Ok by reflexivity.
    rewrite (bind_Ok _ _ _ _ _ _ Hrd).
    unfold check_plugins. cbn [pkt_type]. rewrite Hn.
    unfold raise, mbind, M_bind, bind, prepend. cbn. by rewrite app_nil_r.
Qed.

(** X7: a well-formed frame whose type byte has no entry in the [packets]
    table makes [check_plugins] raise [KeyError] before the interception
    layer is called (the outcome is the same for every such layer): the
    frame is not relayed, the loop ends and the connection is torn down. *)
Theorem unknown_type_tears_down fuel w self c cr cw ct t v d raw rest out :
  pumping w self c cw ct → _client_reader c = Some cr →
  expected_payload decompress v raw = Some out →
  packets !! Z.of_N (Byte.to_N t) = None →
  (frame_at signed_vlq (_reader c) w t v d raw rest →
   exits_through_teardown
     (server_pump signed_vlq decompress packets plugin_do others
        (S fuel) self w) self c cw ct KeyError []) ∧
  (frame_at signed_vlq cr w t v d raw rest →
   exits_through_teardown
     (client_loop signed_vlq decompress packets plugin_do others
        (S fuel) self w) self c cw ct KeyError []).
Proof.
  intros Hp Hcr Hout Hn.
  assert (∀ o logs, io_of logs = [] →
            exits_through_teardown o self c cw ct KeyError logs →
            exits_through_teardown o self c cw ct KeyError []) as Hlogs.
  { intros o logs Hio (H1 & H2 & H3 & H4).
    split_and!; [done | by rewrite H2, Hio | | done].
    by rewrite H3, (writes_of_logs _ Hio). }
  split; intros Hf.
  - destruct (server_body_unknown_type w self c t v d raw rest out)
      as (logs & Hio & Hbody); [apply Hp | done..|].
    apply (Hlogs _ logs Hio). unfold server_pump. eapply finally_die.
    + by apply server_while_first.
    + by apply pumping_set_inbox.
  - destruct (client_body_unknown_type w self c cr t v d raw rest out)
      as (logs & Hio & Hbody); [apply Hp | done..|].
    apply (Hlogs _ logs Hio). unfold client_loop. eapply finally_die.
    + by apply client_while_first.
    + by apply pumping_set_inbox.
Qed.

(** X8: in a turn of the upstream loop, a frame whose verdict is drop causes
    no write; a frame whose verdict is forward has its original bytes
    written to [_writer], the stream of the game client, and the flush is
    requested on that same writer. *)
Theorem client_body_verdict w self c cr t v d raw rest out name verdict w2 evs2
    c2 :
  conns w !! self = Some c → _client_reader c = Some cr →
  frame_at signed_vlq cr w t v d raw rest →
  expected_payload decompress v raw = Some out →
  packets !! Z.of_N (Byte.to_N t) = Some name →
  plugin_do self name (server_packet t v d raw out)
    (set_inbox <[cr := rest]> w) = mkOut (Ok verdict) w2 evs2 →
  conns w2 !! self = Some c2 →
  ∃ logs,
    io_of logs = [] ∧
    emitted (client_body signed_vlq decompress packets plugin_do others
               self w) =
      logs ++ evs2 ++
      (if verdict
       then [EvWrite (_writer c2) ([t] ++ d ++ raw); EvDrain (_writer c2)]
       else []).
Proof.
  intros Hc Hcr Hf Hp Hn Hplug Hc2.
  destruct (read_packet_frame signed_vlq decompress cr "Server"
              w t v d raw rest out Hf Hp) as [logs Hrd].
  exists logs. split.
  - destruct (reads_only_read_packet signed_vlq decompress cr
                "Server" w) as [_ Hio].
    by rewrite Hrd in Hio.
  - unfold client_body.
    rewrite (bind_Ok _ _ _ _ _ _ (get_conn_eval w self c Hc)).
    rewrite Hcr. erewrite bind_Ok by reflexivity.
    rewrite (bind_Ok _ _ _ _ _ _ Hrd).
    unfold check_plugins. cbn [pkt_type]. rewrite Hn.
    fold (server_packet t v d raw out).
    rewrite (bind_Ok _ _ _ _ _ _ Hplug).
    cbn [prepend emitted app]. do 2 f_equal.
    destruct verdict; [|done].
    by rewrite (write_eval others w2 self c2).
Qed.

Lemma exits_drop_logs o self c cw ct e logs evs :
  io_of logs = [] →
  exits_through_teardown o self c cw ct e (logs ++ evs) →
  exits_through_teardown o self c cw ct e evs.
Proof.
  intros Hio (H1 & H2 & H3 & H4).
  split_and!; [done | | | done].
  - by rewrite H2, io_of_app, Hio.
  - by rewrite H3, writes_of_app, (writes_of_logs _ Hio).
Qed.

(** X18: a flush that fails while a frame is being relayed ends the loop
    with the exception of the stream and tears the connection down; the
    write of the frame has already been issued, and it is not repeated.
    Both loops flush the client writer, so a broken client stream ends the
    downstream loop as well as the upstream one. *)
Theorem flush_failure_tears_down fuel w self c cr cw ct t v d raw rest out
    name w2 evs2 e :
  conns w !! self = Some c → _client_reader c = Some cr →
  expected_payload decompress v raw = Some out →
  packets !! Z.of_N (Byte.to_N t) = Some name →
  pumping w2 self c cw ct → broken w2 !! _writer c = Some e →
  (frame_at signed_vlq (_reader c) w t v d raw rest →
   plugin_do self name (client_packet t v d raw out)
     (set_inbox <[_reader c := rest]> w) = mkOut (Ok true) w2 evs2 →
   exits_through_teardown
     (server_pump signed_vlq decompress packets plugin_do others
        (S fuel) self w) self c cw ct e
     (evs2 ++ [EvWrite cw ([t] ++ d ++ raw); EvDrain (_writer c)])) ∧
  (frame_at signed_vlq cr w t v d raw rest →
   plugin_do self name (server_packet t v d raw out)
     (set_inbox <[cr := rest]> w) = mkOut (Ok true) w2 evs2 →
   exits_through_teardown
     (client_loop signed_vlq decompress packets plugin_do others
        (S fuel) self w) self c cw ct e
     (evs2 ++ [EvWrite (_writer c) ([t] ++ d ++ raw); EvDrain (_writer c)])).
Proof.
  intros Hc Hcr Hp Hn Hp2 Hbr.
  assert (conns w2 !! self = Some c) as Hc2 by apply Hp2.
  assert (_client_writer c = Some cw) as Hcw by apply Hp2.
  split; intros Hf Hplug.
  - destruct (read_packet_frame signed_vlq decompress (_reader c) "Client"
                w t v d raw rest out Hf Hp) as [logs Hrd].
    assert (io_of logs = []) as Hio.
    { destruct (reads_only_read_packet signed_vlq decompress (_reader c)
                  "Client" w) as [_ Hio].
      by rewrite Hrd in Hio. }
    apply (exits_drop_logs _ _ _ _ _ _ logs _ Hio).
    unfold server_pump. eapply finally_die; [|exact Hp2].
    apply server_while_first. unfold server_body.
    rewrite (bind_Ok _ _ _ _ _ _ (get_conn_eval w self c Hc)).
    rewrite (bind_Ok _ _ _ _ _ _ Hrd).
    unfold check_plugins. cbn [pkt_type]. rewrite Hn.
    fold (client_packet t v d raw out).
    rewrite (bind_Ok _ _ _ _ _ _ Hplug).
    rewrite (write_client_eval others w2 self c cw) by done.
    unfold drain_res, drain_after, prepend. rewrite Hbr. done.
  - destruct (read_packet_frame signed_vlq decompress cr "Server"
                w t v d raw rest out Hf Hp) as [logs Hrd].
    assert (io_of logs = []) as Hio.
    { destruct (reads_only_read_packet signed_vlq decompress cr
                  "Server" w) as [_ Hio].
      by rewrite Hrd in Hio. }
    apply (exits_drop_logs _ _ _ _ _ _ logs _ Hio).
    unfold client_loop. eapply finally_die; [|exact Hp2].
    apply client_while_first. unfold client_body.
    rewrite (bind_Ok _ _ _ _ _ _ (get_conn_eval w self c Hc)).
    rewrite Hcr. erewrite bind_Ok by reflexivity.
    rewrite (bind_Ok _ _ _ _ _ _ Hrd).
    unfold check_plugins. cbn [pkt_type]. rewrite Hn.
    fold (server_packet t v d raw out).
    rewrite (bind_Ok _ _ _ _ _ _ Hplug).
    rewrite (write_eval others w2 self c) by done.
    unfold drain_res, drain_after, prepend. rewrite Hbr. done.
Qed.

End PumpLoops.

(** ** Relaying a stream of frames *)

Lemma relayed_cons writer verdict p ps :
  relayed writer verdict (p :: ps) =
  (if verdict p then [(writer, pkt_original_data p)] else []) ++
  relayed writer verdict ps.
Proof.
  unfold relayed. destruct (verdict p) eqn:Hv.
  - by rewrite filter_cons_True.
  - rewrite filter_cons_False; [done|]. by rewrite Hv.
Qed.

Section RelayStream.

Variable signed_vlq : list byte → option (Z * list byte * list byte).
Variable decompress : list byte → option (list byte).
Variable packets : gmap Z string.
Variable plugin_do : nat → string → Packet → M bool.
Variable others : World → World.
Variable verdict : Packet → bool.

Hypothesis others_calm : calm others.
Hypothesis plugins_decide : decides_only plugin_do verdict.

Lemma framed_concat dir s ps :
  framed signed_vlq decompress packets dir s ps →
  concat (pkt_original_data <$> ps) = s.
Proof.
  induction 1 as [|t v d raw out rest ps Hv Hlen Hout Hty Hfr IH]; [done|].
  cbn. rewrite IH. by rewrite <- !app_assoc.
Qed.

(** One turn of the upstream loop on a frame, the client stream being
    healthy. *)
Lemma client_body_relays w self c cr t v d raw rest out :
  conns w !! self = Some c → _client_reader c = Some cr →
  broken w !! _writer c = None →
  frame_at signed_vlq cr w t v d raw rest →
  expected_payload decompress v raw = Some out →
  is_Some (packets !! Z.of_N (Byte.to_N t)) →
  ∃ w' evs,
    client_body signed_vlq decompress packets plugin_do others self w =
      mkOut (Ok tt) w' evs ∧
    writes_of evs =
      (if verdict (server_packet t v d raw out)
       then [(_writer c, [t] ++ d ++ raw)] else []) ∧
    conns w' = conns w ∧ protocols w' = protocols w ∧
    broken w' = broken w ∧ buffered cr w' = rest.
Proof.
  intros Hc Hcr Hbr Hf Hp [name Hn].
  destruct (read_packet_frame signed_vlq decompress cr "Server"
              w t v d raw rest out Hf Hp) as [logs Hrd].
  assert (writes_of logs = []) as Hlogs.
  { apply writes_of_logs.
    destruct (reads_only_read_packet signed_vlq decompress cr "Server" w)
      as [_ Hio].
    by rewrite Hrd in Hio. }
  set (w0 := set_inbox <[cr := rest]> w) in *.
  assert (conns w0 !! self = Some c) as Hc0 by done.
  unfold client_body.
  rewrite (bind_Ok _ _ _ _ _ _ (get_conn_eval w self c Hc)).
  rewrite Hcr. erewrite bind_Ok by reflexivity.
  rewrite (bind_Ok _ _ _ _ _ _ Hrd).
  unfold check_plugins. cbn [pkt_type]. rewrite Hn.
  fold (server_packet t v d raw out).
  rewrite (bind_Ok _ _ _ _ _ _ (plugins_decide self name _ w0)).
  destruct (verdict (server_packet t v d raw out)).
  - rewrite (write_eval others w0 self c) by done.
    unfold drain_res, drain_after.
    assert (broken w0 !! _writer c = None) as -> by done.
    destruct (others_calm w0) as (Hcs & Hps & Hin & Hbk).
    unfold prepend. cbn [res after emitted app].
    eexists _, _. split; [reflexivity|].
    split_and!.
    + rewrite writes_of_app, Hlogs. done.
    + by rewrite Hcs.
    + by rewrite Hps.
    + by rewrite Hbk.
    + unfold buffered. rewrite Hin. apply buffered_set_inbox.
  - unfold prepend, ret. cbn [res after emitted app].
    eexists _, _. split; [reflexivity|].
    split_and!; try done.
    + rewrite writes_of_app, Hlogs. done.
    + apply buffered_set_inbox.
Qed.

(** One turn of the downstream loop on a frame: the write goes to the
    upstream writer, the flush to the client writer, which must be
    healthy. *)
Lemma server_body_relays w self c cw t v d raw rest out :
  conns w !! self = Some c → _client_writer c = Some cw →
  broken w !! _writer c = None →
  frame_at signed_vlq (_reader c) w t v d raw rest →
  expected_payload decompress v raw = Some out →
  is_Some (packets !! Z.of_N (Byte.to_N t)) →
  ∃ w' evs,
    server_body signed_vlq decompress packets plugin_do others self w =
      mkOut (Ok tt) w' evs ∧
    writes_of evs =
      (if verdict (client_packet t v d raw out)
       then [(cw, [t] ++ d ++ raw)] else []) ∧
    conns w' = conns w ∧ protocols w' = protocols w ∧
    broken w' = broken w ∧ buffered (_reader c) w' = rest.
Proof.
  intros Hc Hcw Hbr Hf Hp [name Hn].
  destruct (read_packet_frame signed_vlq decompress (_reader c) "Client"
              w t v d raw rest out Hf Hp) as [logs Hrd].
  assert (writes_of logs = []) as Hlogs.
  { apply writes_of_logs.
    destruct (reads_only_read_packet signed_vlq decompress (_reader c)
                "Client" w) as [_ Hio].
    by rewrite Hrd in Hio. }
  set (w0 := set_inbox <[_reader c := rest]> w) in *.
  assert (conns w0 !! self = Some c) as Hc0 by done.
  unfold server_body.
  rewrite (bind_Ok _ _ _ _ _ _ (get_conn_eval w self c Hc)).
  rewrite (bind_Ok _ _ _ _ _ _ Hrd).
  unfold check_plugins. cbn [pkt_type]. rewrite Hn.
  fold (client_packet t v d raw out).
  rewrite (bind_Ok _ _ _ _ _ _ (plugins_decide self name _ w0)).
  destruct (verdict (client_packet t v d raw out)).
  - rewrite (write_client_eval others w0 self c cw) by done.
    unfold drain_res, drain_after.
    assert (broken w0 !! _writer c = None) as -> by done.
    destruct (others_calm w0) as (Hcs & Hps & Hin & Hbk).
    unfold prepend. cbn [res after emitted app].
    eexists _, _. split; [reflexivity|].
    split_and!.
    + rewrite writes_of_app, Hlogs. done.
    + by rewrite Hcs.
    + by rewrite Hps.
    + by rewrite Hbk.
    + unfold buffered. rewrite Hin. apply buffered_set_inbox.
  - unfold prepend, ret. cbn [res after emitted app].
    eexists _, _. split; [reflexivity|].
    split_and!; try done.
    + rewrite writes_of_app, Hlogs. done.
    + apply buffered_set_inbox.
Qed.

Lemma client_while_relays self c cr s ps :
  framed signed_vlq decompress packets "Server" s ps →
  _client_reader c = Some cr →
  ∀ fuel w,
    (length ps < fuel)%nat →
    conns w !! self = Some c → broken w !! _writer c = None →
    buffered cr w = s →
    ∃ w1 evs,
      client_while signed_vlq decompress packets plugin_do others fuel self w
        = mkOut (Raise IncompleteReadError) w1 evs ∧
      writes_of evs = relayed (_writer c) verdict ps ∧
      conns w1 = conns w ∧ protocols w1 = protocols w.
Proof.
  intros Hfr Hcr.
  induction Hfr as [|t v d raw out rest ps Hv Hlen Hout Hty Hfr IH];
    intros fuel w Hfuel Hc Hbr Hb; (destruct fuel as [|fuel]; [cbn in Hfuel; lia|]).
  - eexists _, _.
    split; [apply client_while_first; by eapply client_body_eof|].
    by split_and!.
  - destruct (client_body_relays w self c cr t v d raw rest out)
      as (w' & evs & Hbody & Hwr & Hcs & Hps & Hbk & Hbuf); try done.
    destruct (IH fuel w') as (w1 & evs1 & Hloop & Hwr1 & Hcs1 & Hps1).
    + cbn in Hfuel. lia.
    + by rewrite Hcs.
    + by rewrite Hbk.
    + done.
    + exists w1, (evs ++ evs1). cbn [client_while].
      rewrite (bind_Ok _ _ _ _ _ _ Hbody), Hloop.
      split_and!; [done | | congruence | congruence].
      rewrite writes_of_app, Hwr, Hwr1. symmetry. apply relayed_cons.
Qed.

Lemma server_while_relays self c cw s ps :
  framed signed_vlq decompress packets "Client" s ps →
  _client_writer c = Some cw →
  ∀ fuel w,
    (length ps < fuel)%nat →
    conns w !! self = Some c → broken w !! _writer c = None →
    buffered (_reader c) w = s →
    ∃ w1 evs,
      server_while signed_vlq decompress packets plugin_do others fuel self w
        = mkOut (Raise IncompleteReadError) w1 evs ∧
      writes_of evs = relayed cw verdict ps ∧
      conns w1 = conns w ∧ protocols w1 = protocols w.
Proof.
  intros Hfr Hcw.
  induction Hfr as [|t v d raw out rest ps Hv Hlen Hout Hty Hfr IH];
    intros fuel w Hfuel Hc Hbr Hb; (destruct fuel as [|fuel]; [cbn in Hfuel; lia|]).
  - eexists _, _.
    split; [apply server_while_first; by eapply server_body_eof|].
    by split_and!.
  - destruct (server_body_relays w self c cw t v d raw rest out)
      as (w' & evs & Hbody & Hwr & Hcs & Hps & Hbk & Hbuf); try done.
    destruct (IH fuel w') as (w1 & evs1 & Hloop & Hwr1 & Hcs1 & Hps1).
    + cbn in Hfuel. lia.
    + by rewrite Hcs.
    + by rewrite Hbk.
    + done.
    + exists w1, (evs ++ evs1). cbn [server_while].
      rewrite (bind_Ok _ _ _ _ _ _ Hbody), Hloop.
      split_and!; [done | | congruence | congruence].
      rewrite writes_of_app, Hwr, Hwr1. symmetry. apply relayed_cons.
Qed.

End RelayStream.

Section RelayClaims.

Variable signed_vlq : list byte → option (Z * list byte * list byte).
Variable decompress : list byte → option (list byte).
Variable packets : gmap Z string.
Variable plugin_do : nat → string → Packet → M bool.
Variable others : World → World.
Variable verdict : Packet → bool.

(** X9: the upstream loop relays a stream of frames byte for byte and in
    order.  When the real server sends whole frames of known types and then
    closes, the interception layer only decides, no other task interferes
    and the client stream is healthy, the writes of the loop are exactly
    the original bytes of the frames let through, each to the client
    writer, in arrival order; the frames concatenated are the bytes
    received; the loop then ends at the end of the stream and the
    connection is torn down. *)
Theorem client_loop_relays_in_order fuel w self c cr cw ct ps :
  calm others → decides_only plugin_do verdict →
  pumping w self c cw ct → _client_reader c = Some cr →
  broken w !! _writer c = None →
  framed signed_vlq decompress packets "Server" (buffered cr w) ps →
  (length ps < fuel)%nat →
  res (client_loop signed_vlq decompress packets plugin_do others
         fuel self w) = Raise IncompleteReadError ∧
  writes_of (emitted (client_loop signed_vlq decompress packets plugin_do
                        others fuel self w)) =
    relayed (_writer c) verdict ps ∧
  concat (pkt_original_data <$> ps) = buffered cr w ∧
  torn_down (after (client_loop signed_vlq decompress packets plugin_do
                      others fuel self w)) self c cw ct.
Proof.
  intros Hcalm Hdec Hp Hcr Hbr Hfr Hfuel.
  destruct (client_while_relays signed_vlq decompress packets plugin_do
              others verdict Hcalm Hdec self c cr _ ps Hfr Hcr fuel w)
    as (w1 & evs & Hloop & Hwr & Hcs & Hps); [done | apply Hp | done..|].
  assert (pumping w1 self c cw ct) as Hp1.
  { destruct Hp as (H1 & H2 & H3 & H4 & H5 & H6).
    unfold pumping. rewrite Hcs, Hps. done. }
  destruct (finally_die _ w self c cw ct _ w1 evs Hloop Hp1)
    as (Hres & _ & Hwrites & Htd).
  unfold client_loop. split_and!; [done | by rewrite Hwrites | | done].
  by eapply framed_concat.
Qed.

(** X10: the downstream loop relays a stream of frames byte for byte and in
    order to the upstream writer, under the same conditions: the client
    sends whole frames of known types and then closes, the interception
    layer only decides, no other task interferes, and the client stream —
    the one the loop flushes — is healthy. *)
Theorem server_pump_relays_in_order fuel w self c cw ct ps :
  calm others → decides_only plugin_do verdict →
  pumping w self c cw ct →
  broken w !! _writer c = None →
  framed signed_vlq decompress packets "Client" (buffered (_reader c) w) ps →
  (length ps < fuel)%nat →
  res (server_pump signed_vlq decompress packets plugin_do others
         fuel self w) = Raise IncompleteReadError ∧
  writes_of (emitted (server_pump signed_vlq decompress packets plugin_do
                        others fuel self w)) =
    relayed cw verdict ps ∧
  concat (pkt_original_data <$> ps) = buffered (_reader c) w ∧
  torn_down (after (server_pump signed_vlq decompress packets plugin_do
                      others fuel self w)) self c cw ct.
Proof.
  intros Hcalm Hdec Hp Hbr Hfr Hfuel.
  destruct (server_while_relays signed_vlq decompress packets plugin_do
              others verdict Hcalm Hdec self c cw _ ps Hfr) with (fuel := fuel)
              (w := w)
    as (w1 & evs & Hloop & Hwr & Hcs & Hps); [apply Hp | done | apply Hp | done..|].
  assert (pumping w1 self c cw ct) as Hp1.
  { destruct Hp as (H1 & H2 & H3 & H4 & H5 & H6).
    unfold pumping. rewrite Hcs, Hps. done. }
  destruct (finally_die _ w self c cw ct _ w1 evs Hloop Hp1)
    as (Hres & _ & Hwrites & Htd).
  unfold server_pump. split_and!; [done | by rewrite Hwrites | | done].
  by eapply framed_concat.
Qed.

End RelayClaims.

(** ** More on the broadcast and on the life of a connection *)

Lemma chat_only_nil frame : chat_only frame [].
Proof. intros ev Hev. by apply elem_of_nil in Hev. Qed.

Lemma chat_only_app frame evs evs' :
  chat_only frame evs → chat_only frame evs' → chat_only frame (evs ++ evs').
Proof.
  intros H1 H2 ev Hev. apply elem_of_app in Hev as [Hev|Hev]; auto.
Qed.

Section BroadcastEffects.

Variable ChatReceived_build : ChatDict → list byte.
Variable build_packet : Z → list byte → list byte.
Variable others : World → World.

Lemma visit_chat_only w p message world client_id name channel :
  chat_only
    (chat_frame ChatReceived_build build_packet message world client_id
       name channel)
    (emitted
       (try_except
          (send_message ChatReceived_build build_packet others p message
             world client_id name channel)
          (λ e, if is_ConnectionError e then ret tt else raise e) w)).
Proof.
  destruct (conns w !! p) as [c|] eqn:Hc.
  - rewrite (visit_eval ChatReceived_build build_packet others w p c) by done.
    case_bool_decide; [|apply chat_only_nil].
    intros ev Hev. cbn [emitted] in Hev.
    apply elem_of_cons in Hev as [->|Hev]; [left; by eexists|].
    apply list_elem_of_singleton in Hev as ->. right; by eexists.
  - unfold try_except, send_message.
    rewrite (bind_Raise _ _ _ _ _ _ (get_conn_dangling w p Hc)).
    cbn. apply chat_only_nil.
Qed.

(** X16: a broadcast never tears anything down: whatever the registry holds,
    whatever the streams do and whatever the other tasks do meanwhile, the
    only effects [broadcast] performs are writes of the chat frame and
    flushes — no close, no cancellation. *)
Theorem broadcast_only_writes fuel i message world name channel client_id w :
  chat_only
    (chat_frame ChatReceived_build build_packet message world client_id
       name channel)
    (emitted (broadcast_from ChatReceived_build build_packet others fuel i
                message world name channel client_id w)).
Proof.
  revert i w. induction fuel as [|fuel IH]; intros i w;
    [apply chat_only_nil|].
  rewrite broadcast_from_step.
  destruct (protocols w !! i) as [p|]; [|apply chat_only_nil].
  pose proof (visit_chat_only w p message world client_id name channel)
    as Hvisit.
  unfold mbind, M_bind, bind.
  destruct (try_except _ _ w) as [[[]|e|] w1 evs]; cbn [emitted] in *;
    try done.
  unfold prepend. cbn [emitted]. apply chat_only_app; [done | apply IH].
Qed.

End BroadcastEffects.

Section LifeCycle.

Variable signed_vlq : list byte → option (Z * list byte * list byte).
Variable decompress : list byte → option (list byte).
Variable packets : gmap Z string.
Variable plugin_do : nat → string → Packet → M bool.
Variable others : World → World.

Lemma calm_registry_stable : calm others → registry_stable others.
Proof. intros H w. destruct (H w) as (? & ? & ? & ?). done. Qed.

Lemma server_connect_inbox self w :
  upstream_down (others w) = None →
  inbox (after (server_connect others self w)) = inbox (others w).
Proof.
  intros Hup.
  unfold server_connect, open_connection, suspend, Task, new_object,
    update_conn, modify, gets, mbind, M_bind, bind.
  rewrite Hup. done.
Qed.

Lemma finally_die_after (body : M unit) w self e w1 evs :
  body w = mkOut (Raise e) w1 evs →
  after (try_finally body (die self) w) = after (die self w1).
Proof.
  intros Hb. unfold try_finally. rewrite Hb.
  by destruct (die self w1) as [[[]|e'|] w2 evs'].
Qed.

(** X17: accept then disconnect is a round trip on the registry.  When a
    client is accepted, the dial succeeds and the client closes its stream
    without sending anything, the server loop ends at the end of the stream
    and the teardown undoes the registration: the registry is what it was
    before the accept, the client writer is closed, the connection is no
    longer alive and nothing has been written. *)
Theorem accept_then_disconnect w reader writer fuel :
  registry_wf w → calm others →
  upstream_down (others (after (ServerFactory_call reader writer w))) = None →
  buffered reader w = [] →
  res ((ServerFactory_call reader writer;;
        server_loop signed_vlq decompress packets plugin_do others
          (S fuel) (next_id w)) w) = Raise IncompleteReadError ∧
  protocols (after ((ServerFactory_call reader writer;;
        server_loop signed_vlq decompress packets plugin_do others
          (S fuel) (next_id w)) w)) = protocols w ∧
  writes_of (emitted ((ServerFactory_call reader writer;;
        server_loop signed_vlq decompress packets plugin_do others
          (S fuel) (next_id w)) w)) = [] ∧
  writer ∈ closed (after ((ServerFactory_call reader writer;;
        server_loop signed_vlq decompress packets plugin_do others
          (S fuel) (next_id w)) w)) ∧
  (_alive <$> conns (after ((ServerFactory_call reader writer;;
        server_loop signed_vlq decompress packets plugin_do others
          (S fuel) (next_id w)) w)) !! next_id w) = Some false.
Proof.
  intros [Hnd Hlt] Hcalm Hup Hbuf.
  assert (next_id w ∉ protocols w) as Hfresh.
  { intros Hin. apply Hlt in Hin. lia. }
  destruct (accept_and_connect others w reader writer Hnd Hfresh
              (calm_registry_stable Hcalm) Hup)
    as (c & cw & ct & Hres & Hp & Hrd & Hwr & _).
  pose proof (server_connect_inbox (next_id w) _ Hup) as Hinbox.
  set (w1 := after (ServerFactory_call reader writer w)) in *.
  assert (ServerFactory_call reader writer w =
            mkOut (Ok tt) w1 [EvLog WARNING "Initializing protocol."]) as Hcall
    by (subst w1; by rewrite ServerFactory_call_eval).
  rewrite (bind_Ok _ _ _ _ _ _ Hcall). unfold server_loop.
  destruct (server_connect others (next_id w) w1) as [r w2 evs2] eqn:Hconn.
  cbn [res after] in *. subst r.
  assert (io_of evs2 = []) as Hevs2.
  { pose proof (f_equal emitted Hconn) as Hev. cbn [emitted] in Hev.
    rewrite <- Hev.
    unfold server_connect, open_connection, suspend, Task, new_object,
      update_conn, modify, gets, mbind, M_bind, bind.
    rewrite Hup. done. }
  rewrite (bind_Ok _ _ _ _ _ _ Hconn).
  assert (buffered (_reader c) w2 = []) as Hbuf2.
  { unfold buffered. rewrite Hinbox, Hrd.
    destruct (Hcalm w1) as (_ & _ & -> & _).
    subst w1. rewrite ServerFactory_call_eval, StarryPyServer_init_eval.
    exact Hbuf. }
  assert (protocols w2 = protocols w ++ [next_id w]) as Hps2.
  { pose proof (f_equal after Hconn) as Haft. cbn [after] in Haft.
    rewrite <- Haft.
    unfold server_connect, open_connection, suspend, Task, new_object,
      update_conn, modify, gets, mbind, M_bind, bind.
    rewrite Hup. cbn.
    destruct (Hcalm w1) as (_ & -> & _ & _).
    subst w1. by rewrite ServerFactory_call_eval, StarryPyServer_init_eval. }
  pose proof (server_while_first signed_vlq decompress packets plugin_do others
                fuel _ _ _ _ _
                (server_body_eof signed_vlq decompress packets plugin_do
                   others w2 (next_id w) c (proj1 Hp) Hbuf2)) as Hloop.
  assert (pumping (set_inbox <[_reader c := []]> w2) (next_id w) c cw ct)
    as Hp' by by apply pumping_set_inbox.
  destruct (finally_die _ w2 _ c cw ct _ _ _ Hloop Hp')
    as (Hres' & _ & Hwrites & Htd).
  pose proof (finally_die_after _ w2 (next_id w) _ _ _ Hloop) as Hafter.
  pose proof (die_pumping_protocols _ _ c cw ct Hp') as Hps'.
  destruct Htd as (Hcl & _ & _ & _ & _ & Halive).
  unfold server_pump in *. unfold prepend. cbn [res after emitted].
  split_and!.
  - done.
  - rewrite Hafter, Hps'. cbn [set_inbox protocols]. rewrite Hps2.
    rewrite filter_app, filter_ne_absent by done.
    rewrite filter_cons_False by (intros Hne; by apply Hne). by rewrite app_nil_r.
  - rewrite !writes_of_app, Hwrites, (writes_of_logs _ Hevs2). done.
  - by rewrite <- Hwr.
  - done.
Qed.

End LifeCycle.

(** ** The further theorems on concrete states *)

Lemma read_packet_end_of_stream_witness :
  res (read_packet spec_signed_vlq stored_inflate 7 "Client" empty_world) =
    Raise IncompleteReadError ∧
  buffered 7 (after (read_packet spec_signed_vlq stored_inflate 7 "Client"
                       empty_world)) = [].
Proof.
  apply (read_packet_end_of_stream spec_signed_vlq stored_inflate 7%nat
           "Client" empty_world).
  reflexivity.
Defined.

Lemma read_packet_truncated_witness :
  res (read_packet spec_signed_vlq stored_inflate 7 "Client"
         (world_reading 7 truncated_frame)) = Raise IncompleteReadError ∧
  buffered 7 (after (read_packet spec_signed_vlq stored_inflate 7 "Client"
                       (world_reading 7 truncated_frame))) = [].
Proof.
  apply (read_packet_truncated spec_signed_vlq stored_inflate 7%nat "Client"
           (world_reading 7 truncated_frame) x04 [x0a; x68]).
  - reflexivity.
  - right. exists 5, [x0a], [x68]. split; [reflexivity | cbn; lia].
Defined.

Lemma die_without_upstream_witness :
  res (die 10 upstream_unreachable) = Raise AttributeError ∧
  io_of (emitted (die 10 upstream_unreachable)) = [EvClose 1] ∧
  protocols (after (die 10 upstream_unreachable)) = [10%nat] ∧
  io_of (emitted (die 10 (after (die 10 upstream_unreachable)))) =
    [EvClose 1].
Proof.
  destruct (die_without_upstream upstream_unreachable 10%nat
              (mkConn 1 1 None None None 11 None true None))
    as (H1 & H2 & _ & H4 & _ & _ & H7); [reflexivity..|].
  split_and!; [exact H1 | exact H2 | exact H4 | exact H7].
Defined.

Lemma die_unregistered_witness :
  res (die 10 A_unregistered) = Raise ValueError ∧
  io_of (emitted (die 10 A_unregistered)) = teardown_io conn_A 2 12 ∧
  conns (after (die 10 A_unregistered)) = conns A_unregistered ∧
  protocols (after (die 10 A_unregistered)) = protocols A_unregistered ∧
  io_of (emitted (die 10 (after (die 10 A_unregistered)))) =
    teardown_io conn_A 2 12.
Proof.
  apply (die_unregistered A_unregistered 10%nat conn_A 2%nat 12%nat);
    try reflexivity.
  apply (bool_decide_unpack _). reflexivity.
Defined.

Lemma die_leaves_others_witness :
  conns (after (die 10 two_clients)) !! 20%nat = Some conn_B ∧
  protocols (after (die 10 two_clients)) = [20%nat].
Proof.
  destruct (die_leaves_others two_clients 10%nat conn_A 2%nat 12%nat)
    as (Hconns & Hps & _).
  - split_and!; try reflexivity.
    + apply list_elem_of_here.
    + apply (bool_decide_unpack _). reflexivity.
  - split.
    + rewrite (Hconns 20%nat); [reflexivity | discriminate].
    + exact Hps.
Defined.

Lemma registry_wf_preserved_witness :
  registry_wf (after (ServerFactory_call 5 5 two_clients)) ∧
  registry_wf (after (remove 10 two_clients)) ∧
  registry_wf (after (die 10 two_clients)).
Proof.
  destruct (registry_wf_preserved two_clients) as (Hcall & Hrem & Hdie).
  - split.
    + apply (bool_decide_unpack _). reflexivity.
    + apply Forall_forall. apply (bool_decide_unpack _). reflexivity.
  - split_and!; [apply Hcall | apply Hrem | apply Hdie].
Defined.

Lemma loop_exit_tears_down_witness :
  exits_through_teardown
    (server_pump spec_signed_vlq stored_inflate demo_packets forward_all
       no_others 2 10 hello_waiting) 10 conn_A 2 12 IncompleteReadError
    (emitted (server_while spec_signed_vlq stored_inflate demo_packets
                forward_all no_others 2 10 hello_waiting)).
Proof.
  destruct (loop_exit_tears_down spec_signed_vlq stored_inflate demo_packets
              forward_all no_others 2%nat hello_waiting 10%nat conn_A
              2%nat 12%nat IncompleteReadError
              (after (server_while spec_signed_vlq stored_inflate
                        demo_packets forward_all no_others 2 10
                        hello_waiting))
              (emitted (server_while spec_signed_vlq stored_inflate
                          demo_packets forward_all no_others 2 10
                          hello_waiting))) as [Hdown _].
  - split_and!; try reflexivity.
    + apply list_elem_of_here.
    + apply (bool_decide_unpack _). reflexivity.
  - apply Hdown. reflexivity.
Defined.

Lemma end_of_stream_tears_down_witness :
  exits_through_teardown
    (server_pump spec_signed_vlq stored_inflate demo_packets forward_all
       no_others 1 10 two_clients) 10 conn_A 2 12 IncompleteReadError [] ∧
  exits_through_teardown
    (client_loop spec_signed_vlq stored_inflate demo_packets forward_all
       no_others 1 10 two_clients) 10 conn_A 2 12 IncompleteReadError [].
Proof.
  destruct (end_of_stream_tears_down spec_signed_vlq stored_inflate
              demo_packets forward_all no_others 0%nat two_clients 10%nat
              conn_A 2%nat 2%nat 12%nat) as [Hdown Hup].
  - split_and!; try reflexivity.
    + apply list_elem_of_here.
    + apply (bool_decide_unpack _). reflexivity.
  - reflexivity.
  - split; [apply Hdown | apply Hup]; reflexivity.
Defined.

Lemma unknown_type_tears_down_witness :
  exits_through_teardown
    (server_pump spec_signed_vlq stored_inflate ∅ forward_all
       no_others 1 10 relay_waiting) 10 conn_A 2 12 KeyError [] ∧
  exits_through_teardown
    (client_loop spec_signed_vlq stored_inflate ∅ forward_all
       no_others 1 10 relay_waiting) 10 conn_A 2 12 KeyError [].
Proof.
  destruct (unknown_type_tears_down spec_signed_vlq stored_inflate
              ∅ forward_all no_others 0%nat relay_waiting 10%nat
              conn_A 2%nat 2%nat 12%nat x04 5 [x0a]
              [x68; x65; x6c; x6c; x6f] hi_frame [x68; x65; x6c; x6c; x6f])
    as [Hdown Hup].
  - split_and!; try reflexivity.
    + apply list_elem_of_here.
    + apply (bool_decide_unpack _). reflexivity.
  - reflexivity.
  - reflexivity.
  - reflexivity.
  - split; [apply Hdown | apply Hup]; repeat split.
Defined.

Lemma client_body_verdict_witness :
  ∃ logs,
    io_of logs = [] ∧
    emitted (client_body spec_signed_vlq stored_inflate demo_packets
               forward_all no_others 10 relay_waiting) =
      logs ++ [] ++ [EvWrite 1 hello_frame; EvDrain 1].
Proof.
  apply (client_body_verdict spec_signed_vlq stored_inflate demo_packets
           forward_all no_others relay_waiting 10%nat conn_A 2%nat
           x04 5 [x0a] [x68; x65; x6c; x6c; x6f] hi_frame
           [x68; x65; x6c; x6c; x6f] "chat_received" true
           (set_inbox <[2%nat := hi_frame]> relay_waiting) [] conn_A).
  - reflexivity.
  - reflexivity.
  - repeat split.
  - reflexivity.
  - reflexivity.
  - reflexivity.
  - reflexivity.
Defined.

Lemma client_loop_relays_in_order_witness :
  res (client_loop spec_signed_vlq stored_inflate demo_packets forward_plain
         no_others 3 10 relay_waiting) = Raise IncompleteReadError ∧
  writes_of (emitted (client_loop spec_signed_vlq stored_inflate demo_packets
                        forward_plain no_others 3 10 relay_waiting)) =
    [(1%nat, hello_frame)] ∧
  concat (pkt_original_data <$> [hello_packet "Server"; hi_packet "Server"]) =
    hello_frame ++ hi_frame ∧
  torn_down (after (client_loop spec_signed_vlq stored_inflate demo_packets
                      forward_plain no_others 3 10 relay_waiting))
            10 conn_A 2 12.
Proof.
  apply (client_loop_relays_in_order spec_signed_vlq stored_inflate
           demo_packets forward_plain no_others plain_only 3%nat
           relay_waiting 10%nat conn_A 2%nat 2%nat 12%nat
           [hello_packet "Server"; hi_packet "Server"]).
  - intros w. done.
  - intros self name p w. reflexivity.
  - split_and!; try reflexivity.
    + apply list_elem_of_here.
    + apply (bool_decide_unpack _). reflexivity.
  - reflexivity.
  - reflexivity.
  - apply (framed_cons spec_signed_vlq stored_inflate demo_packets "Server"
             x04 5 [x0a] [x68; x65; x6c; x6c; x6f] [x68; x65; x6c; x6c; x6f]
             hi_frame [hi_packet "Server"]);
      [reflexivity | reflexivity | reflexivity | by eexists |].
    apply (framed_cons spec_signed_vlq stored_inflate demo_packets "Server"
             x04 (-13) [x19] hi_zlib [x68; x69] [] []);
      [reflexivity | reflexivity | reflexivity | by eexists |].
    apply framed_nil.
  - cbn. lia.
Defined.

Lemma server_pump_relays_in_order_witness :
  res (server_pump spec_signed_vlq stored_inflate demo_packets forward_plain
         no_others 3 10 relay_waiting) = Raise IncompleteReadError ∧
  writes_of (emitted (server_pump spec_signed_vlq stored_inflate demo_packets
                        forward_plain no_others 3 10 relay_waiting)) =
    [(2%nat, hello_frame)] ∧
  concat (pkt_original_data <$> [hello_packet "Client"; hi_packet "Client"]) =
    hello_frame ++ hi_frame ∧
  torn_down (after (server_pump spec_signed_vlq stored_inflate demo_packets
                      forward_plain no_others 3 10 relay_waiting))
            10 conn_A 2 12.
Proof.
  apply (server_pump_relays_in_order spec_signed_vlq stored_inflate
           demo_packets forward_plain no_others plain_only 3%nat
           relay_waiting 10%nat conn_A 2%nat 12%nat
           [hello_packet "Client"; hi_packet "Client"]).
  - intros w. done.
  - intros self name p w. reflexivity.
  - split_and!; try reflexivity.
    + apply list_elem_of_here.
    + apply (bool_decide_unpack _). reflexivity.
  - reflexivity.
  - apply (framed_cons spec_signed_vlq stored_inflate demo_packets "Client"
             x04 5 [x0a] [x68; x65; x6c; x6c; x6f] [x68; x65; x6c; x6c; x6f]
             hi_frame [hi_packet "Client"]);
      [reflexivity | reflexivity | reflexivity | by eexists |].
    apply (framed_cons spec_signed_vlq stored_inflate demo_packets "Client"
             x04 (-13) [x19] hi_zlib [x68; x69] [] []);
      [reflexivity | reflexivity | reflexivity | by eexists |].
    apply framed_nil.
  - cbn. lia.
Defined.

Lemma accept_then_disconnect_witness :
  res ((ServerFactory_call 1 1;;
        server_loop spec_signed_vlq stored_inflate demo_packets forward_all
          no_others 1 10) idle_process) = Raise IncompleteReadError ∧
  protocols (after ((ServerFactory_call 1 1;;
        server_loop spec_signed_vlq stored_inflate demo_packets forward_all
          no_others 1 10) idle_process)) = [] ∧
  writes_of (emitted ((ServerFactory_call 1 1;;
        server_loop spec_signed_vlq stored_inflate demo_packets forward_all
          no_others 1 10) idle_process)) = [] ∧
  1%nat ∈ closed (after ((ServerFactory_call 1 1;;
        server_loop spec_signed_vlq stored_inflate demo_packets forward_all
          no_others 1 10) idle_process)) ∧
  (_alive <$> conns (after ((ServerFactory_call 1 1;;
        server_loop spec_signed_vlq stored_inflate demo_packets forward_all
          no_others 1 10) idle_process)) !! 10%nat) = Some false.
Proof.
  apply (accept_then_disconnect spec_signed_vlq stored_inflate demo_packets
           forward_all no_others idle_process 1%nat 1%nat 0%nat).
  - split; [apply NoDup_nil_2 | intros p Hp; by apply elem_of_nil in Hp].
  - intros w. done.
  - reflexivity.
  - reflexivity.
Defined.

Lemma flush_failure_tears_down_witness :
  exits_through_teardown
    (server_pump spec_signed_vlq stored_inflate demo_packets forward_all
       no_others 1 10 relay_client_gone) 10 conn_A 2 12 ConnectionResetError
    ([] ++ [EvWrite 2 hello_frame; EvDrain 1]) ∧
  exits_through_teardown
    (client_loop spec_signed_vlq stored_inflate demo_packets forward_all
       no_others 1 10 relay_client_gone) 10 conn_A 2 12 ConnectionResetError
    ([] ++ [EvWrite 1 hello_frame; EvDrain 1]).
Proof.
  split.
  - destruct (flush_failure_tears_down spec_signed_vlq stored_inflate
                demo_packets forward_all no_others 0%nat relay_client_gone
                10%nat conn_A 2%nat 2%nat 12%nat x04 5 [x0a]
                [x68; x65; x6c; x6c; x6f] hi_frame [x68; x65; x6c; x6c; x6f]
                "chat_received"
                (set_inbox <[1%nat := hi_frame]> relay_client_gone) []
                ConnectionResetError) as [Hdown _];
      try reflexivity.
    + split_and!; try reflexivity.
      * apply list_elem_of_here.
      * apply (bool_decide_unpack _). reflexivity.
    + apply Hdown; [repeat split | reflexivity].
  - destruct (flush_failure_tears_down spec_signed_vlq stored_inflate
                demo_packets forward_all no_others 0%nat relay_client_gone
                10%nat conn_A 2%nat 2%nat 12%nat x04 5 [x0a]
                [x68; x65; x6c; x6c; x6f] hi_frame [x68; x65; x6c; x6c; x6f]
                "chat_received"
                (set_inbox <[2%nat := hi_frame]> relay_client_gone) []
                ConnectionResetError) as [_ Hup];
      try reflexivity.
    + split_and!; try reflexivity.
      * apply list_elem_of_here.
      * apply (bool_decide_unpack _). reflexivity.
    + apply Hup; [repeat split | reflexivity].
Defined.
